(** * pdf_to_txt.py: batch conversion of the PDF files of a directory to text

    A shallow embedding of [convert_pdfs_to_txt] (file
    [SUJET 1 - SDWAN/pdf_to_txt.py]) and the properties of it that the
    specification states.

    Python [str] values are modelled as [string] (sequences of 8-bit
    characters); [str.lower] acts on the letters [A]..[Z].  The functions of
    [os.path] are the POSIX ones ([posixpath]): separator [/], no alternative
    separator, extension separator [.].

    The outside world is split in two:
    - an environment [env], read by the program: the working directory, its
      listing, what the PDF library returns for a path, and whether a text
      file can be opened and written;
    - the text files the program writes, a finite map from paths to
      contents, threaded through the run together with the trace of the
      calls made and of the lines printed.

    Exceptions are those that [except Exception] catches, each one as the
    text that [str] gives for it.

    The converter is given twice.  In the section [Converter] the
    directory has been listed and every line can be printed: this is the
    converter as far as the PDF files and the text files go.  After it,
    [convert_pdfs_to_txt_on] and [script] run the same loop on a [host]
    where [os.getcwd], [os.listdir] and [print], which the source calls
    outside its [try] block, can raise as well, and where the PDF library
    may be missing; the two agree when these calls succeed. *)

From Stdlib Require Import ZArith Ascii String.
From stdpp Require Import base tactics option list gmap strings pretty.

Local Open Scope string_scope.

(** ** Strings, as Python sees them *)

Module Str.

(** [c.lower()] on one character. *)
Definition lower_char (c : ascii) : ascii :=
  let n := N_of_ascii c in
  if ((65 <=? n) && (n <=? 90))%N then ascii_of_N (n + 32) else c.

(** [s.lower()] *)
Fixpoint lower (s : string) : string :=
  match s with
  | EmptyString => EmptyString
  | String c s' => String (lower_char c) (lower s')
  end.

(** [s[:i]] for [0 <= i] *)
Fixpoint slice_to (i : nat) (s : string) : string :=
  match i, s with
  | S i', String c s' => String c (slice_to i' s')
  | _, _ => EmptyString
  end.

(** [s[i:]] for [0 <= i] *)
Fixpoint slice_from (i : nat) (s : string) : string :=
  match i, s with
  | S i', String _ s' => slice_from i' s'
  | _, _ => s
  end.

(** [s[i:i+1]], as the character it holds if any. *)
Definition char_at (s : string) (i : Z) : option ascii :=
  if (i <? 0)%Z then None else String.get (Z.to_nat i) s.

(** [s.startswith(prefix)] *)
Fixpoint startswith (s prefix : string) : bool :=
  match prefix, s with
  | EmptyString, _ => true
  | String a prefix', String b s' => Ascii.eqb a b && startswith s' prefix'
  | String _ _, EmptyString => false
  end.

(** [s.endswith(suffix)]: the last [len(suffix)] characters of [s] are
    [suffix]. *)
Definition endswith (s suffix : string) : bool :=
  let n := String.length s in
  let m := String.length suffix in
  (m <=? n)%nat && String.eqb (slice_from (n - m) s) suffix.

(** [s.rfind(c)] for a one-character [c]: the highest index at which [c]
    occurs, [-1] when it does not occur. *)
Fixpoint rfind (s : string) (c : ascii) : Z :=
  match s with
  | EmptyString => (-1)%Z
  | String a s' =>
      let r := rfind s' c in
      if (0 <=? r)%Z then (r + 1)%Z
      else if Ascii.eqb a c then 0%Z else (-1)%Z
  end.

(** [sep.join(l)] *)
Fixpoint join (sep : string) (l : list string) : string :=
  match l with
  | [] => EmptyString
  | [x] => x
  | x :: l' => x ++ sep ++ join sep l'
  end.

(** The truth value of an optional string: [None] and [""] are false. *)
Definition truthy (t : option string) : bool :=
  match t with
  | Some (String _ _) => true
  | _ => false
  end.

End Str.

(** ** [os.path] (POSIX) *)

Module OsPath.

Definition sep : ascii := "/"%char.
Definition extsep : ascii := "."%char.

(** The [while filenameIndex < dotIndex] loop of [genericpath._splitext];
    [n] is the number of iterations left, [dotIndex - filenameIndex]. *)
Fixpoint skip_leading_dots (p : string) (dotIndex : Z) (n : nat)
    (filenameIndex : Z) : string * string :=
  match n with
  | O => (p, EmptyString)
  | S n' =>
      if bool_decide (Str.char_at p filenameIndex = Some extsep)
      then skip_leading_dots p dotIndex n' (filenameIndex + 1)%Z
      else (Str.slice_to (Z.to_nat dotIndex) p,
            Str.slice_from (Z.to_nat dotIndex) p)
  end.

(** [os.path.splitext(p)] *)
Definition splitext (p : string) : string * string :=
  let sepIndex := Str.rfind p sep in
  let dotIndex := Str.rfind p extsep in
  if (sepIndex <? dotIndex)%Z then
    let filenameIndex := (sepIndex + 1)%Z in
    skip_leading_dots p dotIndex (Z.to_nat (dotIndex - filenameIndex))
      filenameIndex
  else (p, EmptyString).

(** [os.path.join(a, b)] *)
Definition join (a b : string) : string :=
  if Str.startswith b (String sep EmptyString) then b
  else if bool_decide (a = EmptyString)
          || Str.endswith a (String sep EmptyString)
       then a ++ b
       else a ++ String sep EmptyString ++ b.

End OsPath.

(** ** File names of the converter *)

(** The test of the comprehension of line 17,
    [f.lower().endswith('.pdf')]. *)
Definition is_pdf (f : string) : bool :=
  Str.endswith (Str.lower f) ".pdf".

(** Line 27: [os.path.splitext(filename)[0] + ".txt"]. *)
Definition txt_filename (filename : string) : string :=
  fst (OsPath.splitext filename) ++ ".txt".

(** ** The outside world *)

(** An exception, as its [str()]: the text that [{e}] prints. *)
Abbreviation Exception := string (only parsing).

(** What [page.extract_text()] does on one page of an opened PDF: it returns
    a text, possibly empty or [None], or it raises. *)
Inductive page : Type :=
  | Extracts (text : option string)
  | ExtractRaises (e : Exception).

(** What [with open(txt_path, 'w', encoding='utf-8') as f: f.write(data)]
    does: it succeeds; or [open] raises and the file is left as it was; or
    the file is opened, hence created or truncated, and the writing raises,
    which leaves [written] in the file. *)
Inductive write_outcome : Type :=
  | WriteOk
  | OpenRaises (e : Exception)
  | WriteRaises (e : Exception) (written : string).

Record env : Type := Env {
  getcwd : string;
  listdir : list string;
  PdfReader : string → Exception + list page;
  open_w : string → string → write_outcome
}.

(** The observable actions of a run, in the order they happen. *)
Inductive event : Type :=
  | Print (line : string)
  | CallPdfReader (pdf_path : string)
  | CallExtractText (pdf_path : string) (page_index : nat)
  | CallOpen (txt_path : string)
  | CallWrite (txt_path : string) (data : string).

#[global] Instance event_eq_dec : EqDecision event.
Proof. solve_decision. Defined.

(** ** Computations that write files, act and may raise *)

Inductive result (A : Type) : Type :=
  | Ok (a : A)
  | Raise (e : Exception).
Arguments Ok {A} a.
Arguments Raise {A} e.

Definition M (A : Type) : Type :=
  gmap string string → result A * gmap string string * list event.

#[global] Instance M_ret : MRet M := λ A a fs, (Ok a, fs, []).

#[global] Instance M_bind : MBind M := λ A B k m fs,
  match m fs with
  | (Ok a, fs1, t1) =>
      match k a fs1 with
      | (r, fs2, t2) => (r, fs2, (t1 ++ t2)%list)
      end
  | (Raise e, fs1, t1) => (Raise e, fs1, t1)
  end.

Definition emit (ev : event) : M unit := λ fs, (Ok tt, fs, [ev]).

Definition raise {A : Type} (e : Exception) : M A := λ fs, (Raise e, fs, []).

(** [try: body / except Exception as e: handler e] *)
Definition try_except (body : M unit) (handler : Exception → M unit)
    : M unit := λ fs,
  match body fs with
  | (Ok a, fs1, t1) => (Ok a, fs1, t1)
  | (Raise e, fs1, t1) =>
      match handler e fs1 with
      | (r, fs2, t2) => (r, fs2, (t1 ++ t2)%list)
      end
  end.

(** [for x in l: body x] *)
Fixpoint for_each {A : Type} (l : list A) (body : A → M unit) : M unit :=
  match l with
  | [] => mret tt
  | x :: l' => body x;; for_each l' body
  end.

Definition print (line : string) : M unit := emit (Print line).

(** ** The lines printed *)

Definition newline : string := String "010"%char EmptyString.

Definition msg_none : string :=
  "Aucun fichier PDF trouvé dans ce répertoire.".
Definition msg_found (n : nat) : string :=
  "Trouvé " ++ pretty n ++ " fichiers PDF. Début de la conversion...".
Definition msg_converting (filename txt_filename : string) : string :=
  "Conversion de '" ++ filename ++ "' vers '" ++ txt_filename ++ "'...".
Definition msg_success (txt_filename : string) : string :=
  "Succès : '" ++ txt_filename ++ "' créé.".
Definition msg_error (filename : string) (e : Exception) : string :=
  "Erreur lors de la conversion de '" ++ filename ++ "': " ++ e.
Definition msg_done : string :=
  newline ++ "Toutes les conversions sont terminées.".

(** ** The converter *)

Section Converter.

Variable E : env.

(** [PdfReader(pdf_path)] followed by reading [reader.pages]. *)
Definition open_pdf (pdf_path : string) : M (list page) :=
  emit (CallPdfReader pdf_path);;
  match PdfReader E pdf_path with
  | inr pages => mret pages
  | inl e => raise e
  end.

(** [page.extract_text()] on the page of index [i]. *)
Definition extract_text (pdf_path : string) (i : nat) (pg : page)
    : M (option string) :=
  emit (CallExtractText pdf_path i);;
  match pg with
  | Extracts text => mret text
  | ExtractRaises e => raise e
  end.

(** Lines 36 to 39, from the page of index [i] on; [text_content] is the
    list built so far. *)
Fixpoint extract_pages (pdf_path : string) (pages : list page) (i : nat)
    (text_content : list string) : M (list string) :=
  match pages with
  | [] => mret text_content
  | pg :: pages' =>
      text ← extract_text pdf_path i pg;
      extract_pages pdf_path pages' (S i)
        (if Str.truthy text then (text_content ++ [default "" text])%list
         else text_content)
  end.

(** Lines 41 and 42. *)
Definition write_text (txt_path data : string) : M unit := λ fs,
  match open_w E txt_path data with
  | OpenRaises e => (Raise e, fs, [CallOpen txt_path])
  | WriteRaises e written =>
      (Raise e, <[txt_path := written]> fs,
       [CallOpen txt_path; CallWrite txt_path data])
  | WriteOk =>
      (Ok tt, <[txt_path := data]> fs,
       [CallOpen txt_path; CallWrite txt_path data])
  end.

(** The body of the loop of line 25. *)
Definition convert_file (filename : string) : M unit :=
  let current_dir := getcwd E in
  let pdf_path := OsPath.join current_dir filename in
  let txt_name := txt_filename filename in
  let txt_path := OsPath.join current_dir txt_name in
  print (msg_converting filename txt_name);;
  try_except
    (pages ← open_pdf pdf_path;
     text_content ← extract_pages pdf_path pages 0 [];
     write_text txt_path (Str.join newline text_content);;
     print (msg_success txt_name))
    (λ e, print (msg_error filename e)).

(** Line 17. *)
Definition pdf_files : list string :=
  filter (λ f, is_pdf f = true) (listdir E).

Definition convert_pdfs_to_txt : M unit :=
  let files := pdf_files in
  match files with
  | [] => print msg_none
  | _ :: _ =>
      print (msg_found (length files));;
      for_each files convert_file;;
      print msg_done
  end.

End Converter.

(** ** The vocabulary of the specification *)

(** The spellings of the extension, in every letter case. *)
Definition pdf_extensions : list string :=
  [".pdf"; ".pdF"; ".pDf"; ".pDF"; ".Pdf"; ".PdF"; ".PDf"; ".PDF"].

(** A name ends in [.pdf], case-insensitively. *)
Definition ends_with_pdf (f : string) : Prop :=
  ∃ stem ext, ext ∈ pdf_extensions ∧ f = stem ++ ext.

(** [c] occurs in [s]. *)
Fixpoint occurs (c : ascii) (s : string) : bool :=
  match s with
  | EmptyString => false
  | String a s' => Ascii.eqb a c || occurs c s'
  end.

(** [s] is made of dots only (the empty string is). *)
Fixpoint only_dots (s : string) : bool :=
  match s with
  | EmptyString => true
  | String a s' => Ascii.eqb a "."%char && only_dots s'
  end.

(** The texts of the pages that have one: pages with no text or an empty
    text are left out. *)
Definition nonempty_texts (texts : list (option string)) : list string :=
  filter (λ s, s ≠ EmptyString) (omap id texts).

(** ** The conversion of one file, summarised

    The functions below say in closed form what [convert_file] does; the
    facts on the run prove that it does. *)

(** The paths that the body of the loop computes for a file. *)
Definition pdf_path (E : env) (filename : string) : string :=
  OsPath.join (getcwd E) filename.
Definition txt_path (E : env) (filename : string) : string :=
  OsPath.join (getcwd E) (txt_filename filename).

(** The first page that raises, with its index and its exception. *)
Fixpoint first_raise (pages : list page) : option (nat * Exception) :=
  match pages with
  | [] => None
  | Extracts _ :: pages' =>
      match first_raise pages' with
      | Some (k, e) => Some (S k, e)
      | None => None
      end
  | ExtractRaises e :: _ => Some (O, e)
  end.

(** What the pages that do not raise return. *)
Definition texts_of (pages : list page) : list (option string) :=
  omap (λ pg, match pg with Extracts t => Some t | ExtractRaises _ => None end)
    pages.

(** The content of the text file of a PDF whose pages return [texts]. *)
Definition text_of (texts : list (option string)) : string :=
  Str.join newline (nonempty_texts texts).

(** How the conversion of one file ends. *)
Inductive outcome : Type :=
  | PdfFailed (e : Exception)
  | PageFailed (k : nat) (e : Exception)
  | OpenFailed (data : string) (e : Exception)
  | WriteFailed (data : string) (e : Exception) (written : string)
  | Converted (data : string).

Definition outcome_of (E : env) (filename : string) : outcome :=
  match PdfReader E (pdf_path E filename) with
  | inl e => PdfFailed e
  | inr pages =>
      match first_raise pages with
      | Some (k, e) => PageFailed k e
      | None =>
          let data := text_of (texts_of pages) in
          match open_w E (txt_path E filename) data with
          | WriteOk => Converted data
          | OpenRaises e => OpenFailed data e
          | WriteRaises e written => WriteFailed data e written
          end
      end
  end.

(** The exception that the [except] clause catches, if any. *)
Definition caught (o : outcome) : option Exception :=
  match o with
  | PdfFailed e | PageFailed _ e | OpenFailed _ e | WriteFailed _ e _ => Some e
  | Converted _ => None
  end.

(** What ends up in the text file, if it is touched at all. *)
Definition written_data (o : outcome) : option string :=
  match o with
  | PdfFailed _ | PageFailed _ _ | OpenFailed _ _ => None
  | WriteFailed _ _ written => Some written
  | Converted data => Some data
  end.

(** The file system after the conversion of [filename]. *)
Definition fs_after (E : env) (filename : string) (fs : gmap string string)
    : gmap string string :=
  match written_data (outcome_of E filename) with
  | Some data => <[txt_path E filename := data]> fs
  | None => fs
  end.

(** The calls made inside the [try] block. *)
Definition calls_of (E : env) (filename : string) (o : outcome)
    : list event :=
  let extracts n := CallExtractText (pdf_path E filename) <$> seq 0 n in
  let all_pages :=
    match PdfReader E (pdf_path E filename) with
    | inr pages => length pages
    | inl _ => O
    end in
  CallPdfReader (pdf_path E filename) ::
  match o with
  | PdfFailed _ => []
  | PageFailed k _ => extracts (S k)
  | OpenFailed _ _ =>
      extracts all_pages ++ [CallOpen (txt_path E filename)]
  | WriteFailed data _ _ | Converted data =>
      extracts all_pages ++
      [CallOpen (txt_path E filename); CallWrite (txt_path E filename) data]
  end.

(** Everything the conversion of [filename] does and prints. *)
Definition trace_of (E : env) (filename : string) : list event :=
  let o := outcome_of E filename in
  Print (msg_converting filename (txt_filename filename)) ::
  calls_of E filename o ++
  [Print (match caught o with
          | Some e => msg_error filename e
          | None => msg_success (txt_filename filename)
          end)].

(** A PDF that opens, whose pages all return a text, and whose text file
    can be written. *)
Definition converts (E : env) (filename : string)
    (texts : list (option string)) : Prop :=
  PdfReader E (pdf_path E filename) = inr (Extracts <$> texts) ∧
  open_w E (txt_path E filename) (text_of texts) = WriteOk.

(** A PDF that cannot be opened, or one of whose pages cannot be read. *)
Definition unreadable (E : env) (filename : string) (e : Exception) : Prop :=
  PdfReader E (pdf_path E filename) = inl e ∨
  ∃ pages k, PdfReader E (pdf_path E filename) = inr pages ∧
             first_raise pages = Some (k, e).

(** The paths opened for writing in a trace. *)
Definition opened (t : list event) : list string :=
  omap (λ ev, match ev with CallOpen p => Some p | _ => None end) t.

(** The name without its last four characters, and the name with these
    replaced by [.txt]. *)
Definition stem_of (f : string) : string :=
  Str.slice_to (String.length f - 4) f.
Definition replace_extension (f : string) : string :=
  stem_of f ++ ".txt".

(** An error of one of the three kinds met while a file is processed: the
    PDF cannot be opened, a page cannot be read, or the text file cannot be
    opened or written. *)
Definition fails (E : env) (filename : string) (e : Exception) : Prop :=
  unreadable E filename e ∨
  ∃ texts, PdfReader E (pdf_path E filename) = inr (Extracts <$> texts) ∧
    (open_w E (txt_path E filename) (text_of texts) = OpenRaises e ∨
     ∃ written,
       open_w E (txt_path E filename) (text_of texts) = WriteRaises e written).

(** What the last of [files] to touch the path [k] leaves in it. *)
Definition last_write (E : env) (k : string) (files : list string)
    : option string :=
  foldl (λ acc f,
           match written_data (outcome_of E f) with
           | Some d => if decide (txt_path E f = k) then Some d else acc
           | None => acc
           end) None files.

(** The same environment, with another listing of the directory. *)
Definition with_listdir (E : env) (l : list string) : env :=
  Env (getcwd E) l (PdfReader E) (open_w E).

(** ** Example environments *)

(** A directory [/d] with three PDF files and a text file.  [a.pdf] has
    three pages, the second one without text; [b.PDF] cannot be opened; the
    second page of [c.pdf] cannot be read; files can be written. *)
Definition example_env : env :=
  Env "/d" ["a.pdf"; "b.PDF"; "notes.txt"; "c.pdf"]
    (λ p, if bool_decide (p = "/d/a.pdf")
          then inr [Extracts (Some "Hello"); Extracts (Some "");
                    Extracts (Some "World")]
          else if bool_decide (p = "/d/b.PDF") then inl "not a PDF"
          else inr [Extracts None; ExtractRaises "bad page"])
    (λ _ _, WriteOk).


(** A directory with [a.pdf], [b.PDF] and [notes.txt], both PDF files
    readable. *)
Definition two_pdf_env : env :=
  Env "/d" ["notes.txt"; "b.PDF"; "a.pdf"]
    (λ p, if bool_decide (p = "/d/a.pdf") then inr [Extracts (Some "A")]
          else inr [Extracts (Some "B1"); Extracts (Some "B2")])
    (λ _ _, WriteOk).

(** ** The converter and the script on a machine that can fail

    In the section [Converter] the working directory and its listing are
    given and every line is printed.  Here the calls that the source makes
    outside its [try] block can raise as well: [os.getcwd] of line 14,
    [os.listdir] of line 17 and every [print], also the one of line 30 and
    the one of the [except] clause of line 47.  The reading of the PDF and
    the writing of the text file are those of the section [Converter]. *)

(** The machine on which the script runs: what [os.getcwd] and
    [os.listdir] return or raise, the two PDF libraries, each with the
    [PdfReader] it provides when it is installed, the text files that can
    be written, and the standard output, which accepts a line or raises
    (a name that it cannot encode, a closed pipe). *)
Record host : Type := Host {
  host_getcwd : Exception + string;
  host_listdir : string → Exception + list string;
  pypdf : option (string → Exception + list page);
  PyPDF2 : option (string → Exception + list page);
  host_open_w : string → string → write_outcome;
  host_stdout : string → option Exception
}.



(** [print(line)]: the line is printed, or nothing is and [print] raises. *)
Definition print_on (H : host) (line : string) : M unit := λ fs,
  match host_stdout H line with
  | None => (Ok tt, fs, [Print line])
  | Some e => (Raise e, fs, [])
  end.

(** [os.getcwd()] *)
Definition getcwd_on (H : host) : M string := λ fs,
  match host_getcwd H with
  | inr current_dir => (Ok current_dir, fs, [])
  | inl e => (Raise e, fs, [])
  end.

(** [os.listdir(path)] *)
Definition listdir_on (H : host) (path : string) : M (list string) := λ fs,
  match host_listdir H path with
  | inr entries => (Ok entries, fs, [])
  | inl e => (Raise e, fs, [])
  end.

(** What a run sees once the directory has been listed with the imported
    [PdfReader]. *)
Definition env_of (H : host) (reader : string → Exception + list page)
    (current_dir : string) (entries : list string) : env :=
  Env current_dir entries reader (host_open_w H).

(** The body of the loop of line 25, with the [print] of the host: the one
    of line 30 is outside the [try], the ones of lines 44 and 47 are in the
    [try] and in the [except] clause. *)
Definition convert_file_on (H : host) (E : env) (filename : string)
    : M unit :=
  let current_dir := getcwd E in
  let pdf_path := OsPath.join current_dir filename in
  let txt_name := txt_filename filename in
  let txt_path := OsPath.join current_dir txt_name in
  print_on H (msg_converting filename txt_name);;
  try_except
    (pages ← open_pdf E pdf_path;
     text_content ← extract_pages pdf_path pages 0 [];
     write_text E txt_path (Str.join newline text_content);;
     print_on H (msg_success txt_name))
    (λ e, print_on H (msg_error filename e)).

(** Lines 12 to 49 on a host, with the [PdfReader] that was imported. *)
Definition convert_pdfs_to_txt_on (H : host)
    (reader : string → Exception + list page) : M unit :=
  current_dir ← getcwd_on H;
  entries ← listdir_on H current_dir;
  let E := env_of H reader current_dir entries in
  let files := pdf_files E in
  match files with
  | [] => print_on H msg_none
  | _ :: _ =>
      print_on H (msg_found (length files));;
      for_each files (convert_file_on H E);;
      print_on H msg_done
  end.


(** The result line of a file: its success line, or the error line of the
    exception that was caught for it. *)
Definition result_line (E : env) (filename : string) : string :=
  match caught (outcome_of E filename) with
  | Some e => msg_error filename e
  | None => msg_success (txt_filename filename)
  end.

(** The lines that a run has to print, in order. *)
Definition lines_to_print (E : env) : list string :=
  match pdf_files E with
  | [] => [msg_none]
  | _ :: _ =>
      (msg_found (length (pdf_files E))
       :: mjoin ((λ f, [msg_converting f (txt_filename f); result_line E f])
                   <$> pdf_files E)
       ++ [msg_done])%list
  end.

(** The standard output of the host accepts these lines. *)
Definition accepts (H : host) (lines : list string) : Prop :=
  ∀ line, line ∈ lines → host_stdout H line = None.

(** The lines printed in a trace, and the data written to text files. *)
Definition printed (t : list event) : list string :=
  omap (λ ev, match ev with Print line => Some line | _ => None end) t.
Definition writes (t : list event) : list (string * string) :=
  omap (λ ev, match ev with CallWrite p d => Some (p, d) | _ => None end) t.

(** The first character of a string. *)
Definition first_char (s : string) : option ascii :=
  match s with
  | EmptyString => None
  | String a _ => Some a
  end.

(** ** More example environments *)

(** [a.pdf] and [a.PDF] in one directory, in this order. *)
Definition collision_env : env :=
  Env "/d" ["a.pdf"; "a.PDF"]
    (λ p, if bool_decide (p = "/d/a.pdf") then inr [Extracts (Some "lower")]
          else inr [Extracts (Some "UPPER")])
    (λ _ _, WriteOk).

(** A scanned document: two pages, none with text. *)
Definition scan_env : env :=
  Env "/d" ["scan.pdf"]
    (λ _, inr [Extracts None; Extracts (Some "")]) (λ _ _, WriteOk).

(** A directory in which [a.txt] cannot be opened, and in which writing
    [b.txt] stops after two characters. *)
Definition readonly_env : env :=
  Env "/d" ["a.pdf"; "b.pdf"]
    (λ _, inr [Extracts (Some "text")])
    (λ p _, if bool_decide (p = "/d/a.txt") then OpenRaises "denied"
            else WriteRaises "disk full" "te").



Definition strict_stdout (line : string) : option Exception :=
  if occurs "255"%char line then Some "UnicodeEncodeError" else None.

(** The host with both libraries, with this standard output: it can
    raise, but not on the lines of a run on the example directory. *)
Definition strict_host : host :=
  Host (inr "/d") (λ _, inr ["a.pdf"; "b.PDF"; "notes.txt"; "c.pdf"])
    (Some (PdfReader example_env)) (Some (λ _, inl "old library"))
    (λ _ _, WriteOk) strict_stdout.


(** ** The definitions at work *)

Example is_pdf_upper : is_pdf "b.PDF" = true.
Proof. reflexivity. Qed.
Example is_pdf_other : is_pdf "notes.txt" = false.
Proof. reflexivity. Qed.
Example is_pdf_too_short : is_pdf "pdf" = false.
Proof. reflexivity. Qed.
Example txt_filename_upper : txt_filename "b.PDF" = "b.txt".
Proof. reflexivity. Qed.
Example txt_filename_two_dots : txt_filename "report.v2.pdf" = "report.v2.txt".
Proof. reflexivity. Qed.
Example txt_filename_leading_dots : txt_filename "..a.b.pdf" = "..a.b.txt".
Proof. reflexivity. Qed.
Example txt_filename_only_dots : txt_filename "...pdf" = "...pdf.txt".
Proof. reflexivity. Qed.
Example join_dir : OsPath.join "/home/u" "a.txt" = "/home/u/a.txt".
Proof. reflexivity. Qed.
Example join_root : OsPath.join "/" "a.txt" = "/a.txt".
Proof. reflexivity. Qed.
Example join_texts :
  Str.join newline ["x"; "y"; "z"] = "x" ++ newline ++ "y" ++ newline ++ "z".
Proof. reflexivity. Qed.

(** The run on the example directory: [a.pdf] is converted, [b.PDF] and
    [c.pdf] are reported, and the loop goes on to the end. *)
Example run_example_env :
  convert_pdfs_to_txt example_env ∅
  = (Ok tt, {["/d/a.txt" := "Hello" ++ newline ++ "World"]},
     [Print (msg_found 3);
      Print (msg_converting "a.pdf" "a.txt");
      CallPdfReader "/d/a.pdf";
      CallExtractText "/d/a.pdf" 0; CallExtractText "/d/a.pdf" 1;
      CallExtractText "/d/a.pdf" 2;
      CallOpen "/d/a.txt";
      CallWrite "/d/a.txt" ("Hello" ++ newline ++ "World");
      Print (msg_success "a.txt");
      Print (msg_converting "b.PDF" "b.txt");
      CallPdfReader "/d/b.PDF";
      Print (msg_error "b.PDF" "not a PDF");
      Print (msg_converting "c.pdf" "c.txt");
      CallPdfReader "/d/c.pdf";
      CallExtractText "/d/c.pdf" 0; CallExtractText "/d/c.pdf" 1;
      Print (msg_error "c.pdf" "bad page");
      Print msg_done]).
Proof. by vm_compute. Qed.

(** ** Facts on strings *)

Section StrFacts.

Lemma str_app_cons a (s t : string) : String a s ++ t = String a (s ++ t).
Proof. reflexivity. Qed.

Lemma str_app_nil_l (s : string) : "" ++ s = s.
Proof. reflexivity. Qed.

Lemma str_app_nil_r (s : string) : s ++ "" = s.
Proof. induction s as [|a s IH]; [done|]. by rewrite str_app_cons, IH. Qed.

Lemma str_app_assoc (s t u : string) : (s ++ t) ++ u = s ++ t ++ u.
Proof. induction s as [|a s IH]; [done|]. by rewrite !str_app_cons, IH. Qed.

Lemma str_length_app (s t : string) :
  String.length (s ++ t) = String.length s + String.length t.
Proof. induction s as [|a s IH]; [done|]. rewrite str_app_cons. simpl. lia. Qed.

Lemma str_app_inv_tail (s1 s2 t : string) : s1 ++ t = s2 ++ t → s1 = s2.
Proof.
  revert s2. induction s1 as [|a s1 IH]; intros [|b s2] H.
  - done.
  - apply (f_equal String.length) in H.
    rewrite !str_length_app in H. simpl in H. lia.
  - apply (f_equal String.length) in H.
    rewrite !str_length_app in H. simpl in H. lia.
  - rewrite !str_app_cons in H. injection H as -> H. f_equal. by apply IH.
Qed.

Lemma slice_to_from i (s : string) :
  Str.slice_to i s ++ Str.slice_from i s = s.
Proof.
  revert i. induction s as [|a s IH]; intros [|i]; try done.
  simpl. by rewrite str_app_cons, IH.
Qed.

Lemma slice_to_app (s t : string) : Str.slice_to (String.length s) (s ++ t) = s.
Proof.
  induction s as [|a s IH]; [by destruct t|].
  rewrite str_app_cons. simpl. by rewrite IH.
Qed.

Lemma slice_from_app (s t : string) :
  Str.slice_from (String.length s) (s ++ t) = t.
Proof. induction s as [|a s IH]; [by destruct t|]. by rewrite str_app_cons. Qed.

Lemma length_lower (s : string) : String.length (Str.lower s) = String.length s.
Proof. induction s as [|a s IH]; simpl; congruence. Qed.

Lemma lower_app (s t : string) :
  Str.lower (s ++ t) = Str.lower s ++ Str.lower t.
Proof.
  induction s as [|a s IH]; [done|]. rewrite str_app_cons. simpl.
  by rewrite IH, str_app_cons.
Qed.

(** [endswith] is what its name says. *)
Lemma endswith_spec (s suffix : string) :
  Str.endswith s suffix = true ↔ ∃ p, s = p ++ suffix.
Proof.
  unfold Str.endswith. rewrite andb_true_iff, Nat.leb_le, String.eqb_eq. split.
  - intros [_ H].
    exists (Str.slice_to (String.length s - String.length suffix) s).
    rewrite <- H at 2. symmetry. apply slice_to_from.
  - intros [p ->]. rewrite str_length_app. split; [lia|].
    replace (_ + _ - _) with (String.length p) by lia.
    apply slice_from_app.
Qed.

Lemma lower_app_inv (f p q : string) :
  Str.lower f = p ++ q →
  ∃ s t, f = s ++ t ∧ Str.lower s = p ∧ Str.lower t = q.
Proof.
  revert f. induction p as [|a p IH]; intros f H.
  - by exists "", f.
  - destruct f as [|b f]; [done|]. rewrite str_app_cons in H. simpl in H.
    injection H as Hb H. destruct (IH _ H) as (s & t & -> & <- & <-).
    exists (String b s), t. by rewrite <- Hb.
Qed.

Lemma occurs_app c (s t : string) :
  occurs c (s ++ t) = occurs c s || occurs c t.
Proof.
  induction s as [|a s IH]; [done|]. rewrite str_app_cons. simpl.
  by rewrite IH, orb_assoc.
Qed.

Lemma rfind_absent c (s : string) :
  occurs c s = false → Str.rfind s c = (-1)%Z.
Proof.
  induction s as [|a s IH]; [done|]. simpl.
  intros [Ha Hs]%orb_false_iff. by rewrite (IH Hs), Ha.
Qed.

Lemma rfind_app_last c (s t : string) :
  occurs c t = false →
  Str.rfind (s ++ String c t) c = Z.of_nat (String.length s).
Proof.
  intros Ht. induction s as [|a s IH].
  - rewrite str_app_nil_l. simpl.
    by rewrite (rfind_absent _ _ Ht), Ascii.eqb_refl.
  - rewrite str_app_cons. simpl Str.rfind. rewrite IH.
    destruct (Z.leb_spec 0 (Z.of_nat (String.length s)));
      simpl String.length; lia.
Qed.

Lemma get_app_length (pre : string) a (u : string) :
  String.get (String.length pre) (pre ++ String a u) = Some a.
Proof. induction pre as [|b pre IH]; [done|]. by rewrite str_app_cons. Qed.

End StrFacts.

(** ** Facts on file names *)

Section NameFacts.

Local Ltac by_cases_on c :=
  destruct c as [[] [] [] [] [] [] [] []]; vm_compute; intros H;
  first [discriminate H | auto].

Lemma lower_char_dot c : Str.lower_char c = "."%char → c = "."%char.
Proof. by_cases_on c. Qed.
Lemma lower_char_p c :
  Str.lower_char c = "p"%char → c = "p"%char ∨ c = "P"%char.
Proof. by_cases_on c. Qed.
Lemma lower_char_d c :
  Str.lower_char c = "d"%char → c = "d"%char ∨ c = "D"%char.
Proof. by_cases_on c. Qed.
Lemma lower_char_f c :
  Str.lower_char c = "f"%char → c = "f"%char ∨ c = "F"%char.
Proof. by_cases_on c. Qed.

(** The strings that [lower] sends to [.pdf] are the eight spellings. *)
Lemma lower_pdf_ext (ext : string) :
  Str.lower ext = ".pdf" ↔ ext ∈ pdf_extensions.
Proof.
  split.
  - destruct ext as [|c1 [|c2 [|c3 [|c4 [|c5 ext]]]]]; try done.
    simpl. intros H. injection H as H1 H2 H3 H4.
    apply lower_char_dot in H1 as ->.
    unfold pdf_extensions.
    destruct (lower_char_p _ H2) as [-> | ->],
             (lower_char_d _ H3) as [-> | ->],
             (lower_char_f _ H4) as [-> | ->];
      repeat first [apply list_elem_of_here | apply list_elem_of_further].
  - unfold pdf_extensions. rewrite !elem_of_cons, elem_of_nil.
    intros H. repeat destruct H as [-> | H]; done.
Qed.

(** Every spelling is a dot followed by three characters that are not
    dots and not separators. *)
Lemma pdf_ext_shape (ext : string) :
  ext ∈ pdf_extensions →
  ∃ e, ext = String "."%char e ∧ occurs "."%char e = false
       ∧ occurs "/"%char ext = false.
Proof.
  unfold pdf_extensions. rewrite !elem_of_cons, elem_of_nil.
  intros H. repeat destruct H as [-> | H]; try done; by eexists.
Qed.

(** The filter of line 17 selects the names that end in [.pdf], in any
    letter case. *)
Lemma is_pdf_spec (f : string) : is_pdf f = true ↔ ends_with_pdf f.
Proof.
  unfold is_pdf, ends_with_pdf. rewrite endswith_spec. split.
  - intros [p H]. apply lower_app_inv in H as (s & t & -> & _ & Ht).
    exists s, t. by rewrite <- lower_pdf_ext.
  - intros (stem & ext & Hext & ->). exists (Str.lower stem).
    apply lower_pdf_ext in Hext. by rewrite lower_app, Hext.
Qed.

(** The loop of [_splitext], started at the end of [pre], with [rest]
    left to scan before the last dot. *)
Lemma skip_leading_dots_run (pre rest ext : string) :
  let p := pre ++ rest ++ ext in
  let d := String.length pre + String.length rest in
  OsPath.skip_leading_dots p (Z.of_nat d) (String.length rest)
    (Z.of_nat (String.length pre))
  = if only_dots rest then (p, "")
    else (Str.slice_to d p, Str.slice_from d p).
Proof.
  revert pre. induction rest as [|a rest IH]; intros pre; simpl.
  - done.
  - unfold Str.char_at. rewrite Nat2Z.id.
    destruct (Z.ltb_spec (Z.of_nat (String.length pre)) 0); [lia|].
    rewrite str_app_cons, get_app_length.
    destruct (Ascii.eqb_spec a "."%char) as [->|Hne].
    + rewrite bool_decide_eq_true_2 by done. simpl.
      specialize (IH (pre ++ String "."%char "")).
      rewrite str_length_app in IH. simpl in IH.
      rewrite str_app_assoc, str_app_cons, str_app_nil_l in IH.
      replace (Z.of_nat (String.length pre) + 1)%Z
        with (Z.of_nat (String.length pre + 1)) by lia.
      replace (String.length pre + S (String.length rest))
        with (String.length pre + 1 + String.length rest) by lia.
      apply IH.
    + rewrite bool_decide_eq_false_2 by (unfold OsPath.extsep; congruence).
      simpl.
      by rewrite Nat2Z.id.
Qed.

(** What [splitext] returns glues back to its argument. *)
Lemma splitext_app (p : string) :
  fst (OsPath.splitext p) ++ snd (OsPath.splitext p) = p.
Proof.
  unfold OsPath.splitext. destruct (_ <? _)%Z; [|apply str_app_nil_r].
  cut (∀ d n i, let r := OsPath.skip_leading_dots p d n i in
                fst r ++ snd r = p); [by intros G; apply G|].
  intros d n. induction n as [|n IH]; intros i; simpl; [apply str_app_nil_r|].
  case_bool_decide; [apply IH|]. apply slice_to_from.
Qed.

(** [splitext] on a name made of a stem without separator and of a
    spelling of the extension. *)
Lemma splitext_stem_ext (stem ext : string) :
  occurs "/"%char stem = false → ext ∈ pdf_extensions →
  OsPath.splitext (stem ++ ext)
  = if only_dots stem then (stem ++ ext, "") else (stem, ext).
Proof.
  intros Hstem (e & -> & He & Hsep)%pdf_ext_shape.
  unfold OsPath.splitext, OsPath.sep, OsPath.extsep.
  rewrite (rfind_app_last _ stem e He).
  rewrite (rfind_absent "/"%char) by (by rewrite occurs_app, Hstem, Hsep).
  destruct (Z.ltb_spec (-1) (Z.of_nat (String.length stem))); [|lia].
  replace (Z.to_nat _) with (String.length stem) by lia.
  pose proof (skip_leading_dots_run "" stem (String "."%char e)) as R.
  simpl in R. rewrite !str_app_nil_l in R.
  change (-1 + 1)%Z with (Z.of_nat 0). rewrite R.
  by rewrite slice_to_app, slice_from_app.
Qed.

Lemma pdf_ext_length (ext : string) :
  ext ∈ pdf_extensions → String.length ext = 4.
Proof.
  unfold pdf_extensions. rewrite !elem_of_cons, elem_of_nil.
  intros H. repeat destruct H as [-> | H]; done.
Qed.

Lemma stem_of_app (stem ext : string) :
  ext ∈ pdf_extensions → stem_of (stem ++ ext) = stem.
Proof.
  intros H%pdf_ext_length. unfold stem_of. rewrite str_length_app, H.
  replace (_ + 4 - 4) with (String.length stem) by lia.
  apply slice_to_app.
Qed.

Lemma txt_filename_stem_ext (stem ext : string) :
  occurs "/"%char stem = false → ext ∈ pdf_extensions →
  txt_filename (stem ++ ext)
  = if only_dots stem then (stem ++ ext) ++ ".txt" else stem ++ ".txt".
Proof.
  intros Hs He. unfold txt_filename. rewrite splitext_stem_ext by done.
  by destruct (only_dots stem).
Qed.

Lemma occurs_app_l c (s t : string) :
  occurs c (s ++ t) = false → occurs c s = false.
Proof. rewrite occurs_app. by intros [? ?]%orb_false_iff. Qed.

Lemma str_app_inj_length (s1 s2 t1 t2 : string) :
  String.length s1 = String.length s2 →
  s1 ++ t1 = s2 ++ t2 → s1 = s2 ∧ t1 = t2.
Proof.
  revert s2. induction s1 as [|a s1 IH]; intros [|b s2] Hlen H;
    try discriminate Hlen.
  - done.
  - rewrite !str_app_cons in H. injection H as -> H.
    injection Hlen as Hlen. by destruct (IH s2 Hlen H) as [-> ->].
Qed.

(** An output name is never selected as an input. *)
Lemma is_pdf_txt_filename (f : string) : is_pdf (txt_filename f) = false.
Proof.
  apply not_true_is_false. intros (stem & ext & Hext & H)%is_pdf_spec.
  unfold txt_filename in H. apply str_app_inj_length in H as [_ <-].
  - unfold pdf_extensions in Hext. rewrite !elem_of_cons, elem_of_nil in Hext.
    by repeat destruct Hext as [? | Hext].
  - apply (f_equal String.length) in H.
    rewrite !str_length_app, (pdf_ext_length _ Hext) in H. simpl in H. lia.
Qed.

Lemma only_dots_app_ext (s ext : string) :
  ext ∈ pdf_extensions → only_dots (s ++ ext) = false.
Proof.
  intros H. induction s as [|a s IH].
  - rewrite str_app_nil_l. unfold pdf_extensions in H.
    rewrite !elem_of_cons, elem_of_nil in H.
    by repeat destruct H as [-> | H].
  - rewrite str_app_cons. simpl. rewrite IH. apply andb_false_r.
Qed.

End NameFacts.

(** ** Facts on the run *)

Section RunFacts.

Local Open Scope list_scope.

Variable E : env.

Lemma nonempty_texts_cons t (texts : list (option string)) :
  nonempty_texts (t :: texts)
  = ((if Str.truthy t then [default "" t] else [])
     ++ nonempty_texts texts)%list.
Proof.
  unfold nonempty_texts. by destruct t as [[|c s]|].
Qed.

Lemma texts_of_cons t (pages : list page) :
  texts_of (Extracts t :: pages) = t :: texts_of pages.
Proof. reflexivity. Qed.

Lemma texts_of_fmap (texts : list (option string)) :
  texts_of (Extracts <$> texts) = texts.
Proof.
  induction texts as [|t texts IH]; [done|].
  by rewrite fmap_cons, texts_of_cons, IH.
Qed.

Lemma first_raise_fmap (texts : list (option string)) :
  first_raise (Extracts <$> texts) = None.
Proof.
  induction texts as [|t texts IH]; [done|].
  rewrite fmap_cons. cbn [first_raise]. by rewrite IH.
Qed.

Lemma first_raise_None (pages : list page) :
  first_raise pages = None → pages = Extracts <$> texts_of pages.
Proof.
  induction pages as [|[t|e] pages IH]; [done| |done]. cbn [first_raise].
  destruct (first_raise pages) as [[k e]|]; [done|]. intros _.
  by rewrite texts_of_cons, fmap_cons, <- IH.
Qed.

(** The loop over the pages: it leaves the files alone; it stops at the
    first page that raises, and otherwise returns the non-empty texts
    in page order after what it was given. *)
Lemma extract_pages_run path (pages : list page) i acc fs :
  extract_pages path pages i acc fs
  = match first_raise pages with
    | Some (k, e) => (Raise e, fs, CallExtractText path <$> seq i (S k))
    | None => (Ok (acc ++ nonempty_texts (texts_of pages))%list, fs,
               CallExtractText path <$> seq i (length pages))
    end.
Proof.
  revert i acc. induction pages as [|[t|e] pages IH]; intros i acc.
  - simpl. by rewrite app_nil_r.
  - simpl. unfold mbind, M_bind, extract_text, emit, mret, M_ret.
    simpl. rewrite IH.
    destruct (first_raise pages) as [[k e]|]; [done|].
    rewrite nonempty_texts_cons.
    destruct (Str.truthy t); [by rewrite <- app_assoc|done].
  - done.
Qed.

(** One turn of the loop never raises; its effect on the files and its
    trace are those of the outcome of the file. *)
Lemma convert_file_run filename fs :
  convert_file E filename fs
  = (Ok tt, fs_after E filename fs, trace_of E filename).
Proof.
  unfold convert_file, fs_after, trace_of, calls_of, outcome_of.
  fold (pdf_path E filename) (txt_path E filename).
  unfold mbind, M_bind, try_except, print, open_pdf, emit, raise, mret, M_ret.
  simpl. destruct (PdfReader E (pdf_path E filename)) as [e|pages]; [done|].
  simpl. rewrite extract_pages_run.
  destruct (first_raise pages) as [[k e]|]; [done|].
  simpl. unfold write_text, text_of.
  destruct (open_w E _ _) as [|e|e written]; simpl;
    by rewrite <- ?app_assoc.
Qed.

Lemma for_each_convert_file (files : list string) fs :
  for_each files (convert_file E) fs
  = (Ok tt, foldl (λ fs f, fs_after E f fs) fs files,
     mjoin (trace_of E <$> files)).
Proof.
  revert fs. induction files as [|f files IH]; intros fs; [done|].
  simpl. unfold mbind, M_bind. by rewrite convert_file_run, IH.
Qed.

(** The whole run. *)
Lemma convert_pdfs_to_txt_run fs :
  convert_pdfs_to_txt E fs
  = match pdf_files E with
    | [] => (Ok tt, fs, [Print msg_none])
    | _ :: _ =>
        (Ok tt, foldl (λ fs f, fs_after E f fs) fs (pdf_files E),
         Print (msg_found (length (pdf_files E))) ::
         mjoin (trace_of E <$> pdf_files E) ++ [Print msg_done])
    end.
Proof.
  unfold convert_pdfs_to_txt. destruct (pdf_files E) as [|f files]; [done|].
  unfold mbind, M_bind, print, emit.
  by rewrite for_each_convert_file.
Qed.

Lemma outcome_converts filename texts :
  converts E filename texts →
  outcome_of E filename = Converted (text_of texts).
Proof.
  intros [Hpdf Hw]. unfold outcome_of.
  by rewrite Hpdf, first_raise_fmap, texts_of_fmap, Hw.
Qed.

Lemma outcome_unreadable filename e :
  unreadable E filename e →
  outcome_of E filename = PdfFailed e
  ∨ ∃ k, outcome_of E filename = PageFailed k e.
Proof.
  unfold outcome_of. intros [H|(pages & k & H & Hk)]; rewrite H.
  - by left.
  - right. exists k. by rewrite Hk.
Qed.

(** The exception caught for a file is an error of one of the three
    kinds, and conversely. *)
Lemma caught_fails filename e :
  caught (outcome_of E filename) = Some e ↔ fails E filename e.
Proof.
  unfold fails, unreadable, outcome_of. split.
  - destruct (PdfReader E _) as [e'|pages] eqn:Hpdf; simpl.
    { intros [= ->]. by left; left. }
    destruct (first_raise pages) as [[k e']|] eqn:Hk; simpl.
    { intros [= ->]. left; right. by exists pages, k. }
    apply first_raise_None in Hk. intros H. right.
    exists (texts_of pages). split; [by rewrite <- Hk|].
    destruct (open_w E _ _) as [|e'|e' written]; simplify_eq/=; eauto.
  - intros [[H|(pages & k & H & Hk)]|(texts & H & Hw)]; rewrite H; simpl.
    + done.
    + by rewrite Hk.
    + rewrite first_raise_fmap, texts_of_fmap.
      by destruct Hw as [-> | [written ->]].
Qed.

Lemma opened_app (t1 t2 : list event) :
  opened (t1 ++ t2) = opened t1 ++ opened t2.
Proof. apply omap_app. Qed.

Lemma opened_extracts path (l : list nat) :
  opened (CallExtractText path <$> l) = [].
Proof. induction l as [|i l IH]; [done|]. by rewrite fmap_cons. Qed.

(** The text file of a file is opened at most once, and only when the
    PDF was opened and all its pages were read. *)
Lemma opened_trace_of filename :
  opened (trace_of E filename)
  = match outcome_of E filename with
    | PdfFailed _ | PageFailed _ _ => []
    | _ => [txt_path E filename]
    end.
Proof.
  unfold trace_of, calls_of.
  destruct (outcome_of E filename);
    rewrite ?app_comm_cons, ?opened_app;
    change (opened (Print ?x :: CallPdfReader ?y :: ?l)) with (opened l);
    rewrite ?opened_app, ?opened_extracts; done.
Qed.

Lemma lookup_fs_after filename fs k :
  fs_after E filename fs !! k
  = match written_data (outcome_of E filename) with
    | Some d => if decide (txt_path E filename = k) then Some d else fs !! k
    | None => fs !! k
    end.
Proof.
  unfold fs_after. destruct (written_data _) as [d|]; [|done].
  by rewrite lookup_insert.
Qed.

(** The content of a path after the loop: what the last file to touch it
    left, or what it was before. *)
Lemma lookup_foldl_fs_after (files : list string) fs k :
  foldl (λ fs f, fs_after E f fs) fs files !! k
  = match last_write E k files with
    | Some d => Some d
    | None => fs !! k
    end.
Proof.
  unfold last_write. induction files as [|f files IH] using rev_ind; [done|].
  rewrite !foldl_app. simpl. rewrite lookup_fs_after, IH.
  destruct (written_data _); [|done]. by case_decide.
Qed.



Lemma last_write_snoc (files : list string) f k :
  last_write E k (files ++ [f])
  = match written_data (outcome_of E f) with
    | Some d => if decide (txt_path E f = k) then Some d
                else last_write E k files
    | None => last_write E k files
    end.
Proof. unfold last_write. by rewrite foldl_app. Qed.

Lemma last_write_Some_inv (files : list string) k d :
  last_write E k files = Some d →
  ∃ w, w ∈ files ∧ txt_path E w = k
       ∧ written_data (outcome_of E w) = Some d.
Proof.
  induction files as [|f files IH] using rev_ind; [done|].
  rewrite last_write_snoc.
  destruct (written_data (outcome_of E f)) as [d'|] eqn:Hw;
    [case_decide as Hk|].
  - intros [= ->]. exists f. split; [|done].
    apply elem_of_app. right. apply list_elem_of_here.
  - intros (w & Hin & ?)%IH. exists w. split; [|done].
    apply elem_of_app. by left.
  - intros (w & Hin & ?)%IH. exists w. split; [|done].
    apply elem_of_app. by left.
Qed.

(** When the output paths are pairwise distinct, a path holds what the
    one file that has it as output wrote. *)
Lemma last_write_NoDup (files : list string) k w d :
  NoDup (txt_path E <$> files) →
  w ∈ files → txt_path E w = k →
  written_data (outcome_of E w) = Some d →
  last_write E k files = Some d.
Proof.
  induction files as [|f files IH] using rev_ind.
  { by intros _ ?%elem_of_nil. }
  rewrite fmap_app. intros (Hnd & Hnotin & _)%NoDup_app Hin Hk Hw.
  rewrite last_write_snoc.
  apply elem_of_app in Hin as [Hin|Hin%list_elem_of_singleton]; [|subst w].
  - assert (txt_path E f ≠ k) as Hne.
    { intros Heq. apply (Hnotin k).
      - rewrite <- Hk. by apply list_elem_of_fmap_2.
      - rewrite <- Heq. apply list_elem_of_here. }
    destruct (written_data (outcome_of E f));
      [rewrite decide_False by done|]; by apply IH.
  - by rewrite Hw, decide_True.
Qed.

Lemma last_write_perm (files files' : list string) k :
  NoDup (txt_path E <$> files) → files ≡ₚ files' →
  last_write E k files = last_write E k files'.
Proof.
  intros Hnd Hperm.
  assert (NoDup (txt_path E <$> files')) as Hnd' by (by rewrite <- Hperm).
  destruct (last_write E k files) as [d|] eqn:H1.
  - apply last_write_Some_inv in H1 as (w & Hin & Hk & Hw).
    symmetry. apply (last_write_NoDup _ _ w); [done| |done..].
    by rewrite <- Hperm.
  - destruct (last_write E k files') as [d|] eqn:H2; [|done].
    apply last_write_Some_inv in H2 as (w & Hin & Hk & Hw).
    rewrite <- H1. apply (last_write_NoDup _ _ w); [done| |done..].
    by rewrite Hperm.
Qed.

(** With pairwise distinct output paths, the order of the files does not
    matter to what the loop leaves in the files. *)
Lemma foldl_fs_after_perm (files files' : list string) fs :
  NoDup (txt_path E <$> files) → files ≡ₚ files' →
  foldl (λ fs f, fs_after E f fs) fs files
  = foldl (λ fs f, fs_after E f fs) fs files'.
Proof.
  intros Hnd Hperm. apply map_eq. intros k.
  by rewrite !lookup_foldl_fs_after, (last_write_perm _ _ k Hnd Hperm).
Qed.

(** Running the loop a second time changes nothing. *)
Lemma foldl_fs_after_twice (files : list string) fs :
  let run fs := foldl (λ fs f, fs_after E f fs) fs files in
  run (run fs) = run fs.
Proof.
  intros run. apply map_eq. intros k. unfold run.
  rewrite !lookup_foldl_fs_after. by destruct (last_write E k files).
Qed.


(** A trace with a single opening of a text file splits around it in one
    way only. *)
Lemma split_at_open (l1 l2 t1 t2 : list event) p q :
  opened l1 = [] → opened l2 = [] →
  l1 ++ CallOpen q :: l2 = t1 ++ CallOpen p :: t2 →
  t1 = l1 ∧ p = q.
Proof.
  intros H1 H2. revert t1.
  induction l1 as [|a l1 IH]; intros [|b t1] Heq; simplify_eq/=.
  - done.
  - rewrite opened_app in H2. by destruct (opened t1).
  - destruct (IH) with (t1 := t1) as [-> ->]; [by destruct b|done..].
Qed.

(** Where the text file is opened in the trace of a file, the PDF has
    been opened and every page has been read. *)
Lemma trace_of_open_split filename (t1 t2 : list event) p :
  trace_of E filename = t1 ++ CallOpen p :: t2 →
  ∃ texts,
    PdfReader E (pdf_path E filename) = inr (Extracts <$> texts)
    ∧ p = txt_path E filename
    ∧ t1 = Print (msg_converting filename (txt_filename filename))
           :: CallPdfReader (pdf_path E filename)
           :: (CallExtractText (pdf_path E filename)
                 <$> seq 0 (length texts)).
Proof.
  intros Ht.
  pose proof (opened_trace_of filename) as Ho. rewrite Ht in Ho.
  rewrite opened_app in Ho. revert Ht Ho.
  unfold trace_of, calls_of, outcome_of.
  destruct (PdfReader E (pdf_path E filename)) as [e|pages] eqn:Hpdf.
  { intros _ Ho. by destruct (opened t1). }
  destruct (first_raise pages) as [[k e]|] eqn:Hk.
  { intros _ Ho. by destruct (opened t1). }
  apply first_raise_None in Hk. intros Ht _.
  exists (texts_of pages). split; [by rewrite <- Hk|].
  assert (length (texts_of pages) = length pages) as ->.
  { rewrite Hk at 2. by rewrite length_fmap. }
  set (pre := Print _ :: CallPdfReader _ :: (_ <$> seq 0 (length pages))).
  assert (opened pre = []) as Hpre by apply opened_extracts.
  destruct (open_w E _ _) as [|e|e written]; simpl in Ht;
    rewrite <- app_assoc in Ht; simpl in Ht;
    match type of Ht with
    | _ :: _ :: _ ++ CallOpen ?q :: ?l2 = _ =>
        destruct (split_at_open pre l2 t1 t2 p q Hpre eq_refl Ht)
          as [-> ->]
    end; done.
Qed.

Lemma no_write_extracts path (l : list nat) q d :
  CallWrite q d ∉ CallExtractText path <$> l.
Proof. by intros (i & ? & _)%list_elem_of_fmap. Qed.

(** An unreadable PDF leaves the files as they are, and its text file is
    neither opened nor written. *)
Lemma unreadable_no_write filename e fs :
  unreadable E filename e →
  fs_after E filename fs = fs
  ∧ opened (trace_of E filename) = []
  ∧ (∀ q d, CallWrite q d ∉ trace_of E filename)
  ∧ Print (msg_error filename e) ∈ trace_of E filename.
Proof.
  intros H. rewrite opened_trace_of. unfold fs_after, trace_of, calls_of.
  destruct (outcome_unreadable _ _ H) as [-> | [k ->]]; simpl.
  - split_and!; [done..| |].
    + intros q d Hin. rewrite !elem_of_cons, elem_of_nil in Hin.
      by destruct Hin as [?|[?|[?|[]]]].
    + do 2 apply list_elem_of_further. apply list_elem_of_here.
  - split_and!; [done..| |].
    + intros q d Hin.
      rewrite !elem_of_cons, elem_of_app, list_elem_of_singleton in Hin.
      destruct Hin as [?|[?|[?|[Hin|?]]]]; try done.
      by apply no_write_extracts in Hin.
    + do 3 apply list_elem_of_further. apply elem_of_app. right.
      apply list_elem_of_here.
Qed.



Lemma last_trace_of filename :
  last (trace_of E filename)
  = Some (Print (match caught (outcome_of E filename) with
                 | Some e => msg_error filename e
                 | None => msg_success (txt_filename filename)
                 end)).
Proof. unfold trace_of. by rewrite app_comm_cons, last_snoc. Qed.

Lemma trace_of_in_run (files : list string) filename ev :
  filename ∈ files → ev ∈ trace_of E filename →
  ev ∈ mjoin (trace_of E <$> files).
Proof.
  intros Hf Hev. apply list_elem_of_join. exists (trace_of E filename).
  split; [done|]. by apply list_elem_of_fmap_2.
Qed.

Lemma opened_join_traces (files : list string) :
  opened (mjoin (trace_of E <$> files))
  = mjoin ((λ f, opened (trace_of E f)) <$> files).
Proof.
  induction files as [|f files IH]; [done|].
  rewrite !fmap_cons. simpl. by rewrite opened_app, IH.
Qed.

(** The paths opened for writing during the whole run. *)
Lemma opened_run_trace (files : list string) n :
  opened (Print (msg_found n) :: mjoin (trace_of E <$> files)
          ++ [Print msg_done])
  = mjoin ((λ f, opened (trace_of E f)) <$> files).
Proof.
  change (opened (Print ?x :: ?l)) with (opened l).
  by rewrite opened_app, opened_join_traces, app_nil_r.
Qed.

End RunFacts.

(** Two environments that differ only in the listing behave alike on each
    file. *)
Section SameFiles.

Variables E E' : env.
Hypothesis same_cwd : getcwd E' = getcwd E.
Hypothesis same_pdf : ∀ p, PdfReader E' p = PdfReader E p.
Hypothesis same_open : ∀ p d, open_w E' p d = open_w E p d.

Lemma same_pdf_path f : pdf_path E' f = pdf_path E f.
Proof. unfold pdf_path. by rewrite same_cwd. Qed.

Lemma same_txt_path f : txt_path E' f = txt_path E f.
Proof. unfold txt_path. by rewrite same_cwd. Qed.

Lemma same_outcome f : outcome_of E' f = outcome_of E f.
Proof.
  unfold outcome_of. rewrite same_pdf_path, same_txt_path, same_pdf.
  destruct (PdfReader E _) as [e|pages]; [done|].
  destruct (first_raise pages) as [[k e]|]; [done|].
  by rewrite same_open.
Qed.

Lemma same_fs_after f fs : fs_after E' f fs = fs_after E f fs.
Proof. unfold fs_after. by rewrite same_outcome, same_txt_path. Qed.

Lemma same_trace f : trace_of E' f = trace_of E f.
Proof.
  unfold trace_of, calls_of.
  by rewrite same_outcome, same_pdf_path, same_txt_path, same_pdf.
Qed.

Lemma same_loop (files : list string) fs :
  foldl (λ fs f, fs_after E' f fs) fs files
  = foldl (λ fs f, fs_after E f fs) fs files
  ∧ trace_of E' <$> files = trace_of E <$> files.
Proof.
  split.
  - revert fs. induction files as [|f files IH]; intros fs; [done|].
    simpl. by rewrite same_fs_after, IH.
  - apply list_fmap_ext. intros _ f _. apply same_trace.
Qed.

End SameFiles.


(** ** The claims on file names *)

(** C3, as the specification states it, fails on the entry [.pdf]: the
    filter selects it and its output name is [.pdf.txt], not the name with
    the extension replaced, [.txt]. *)
Lemma C3_counterexample :
  is_pdf ".pdf" = true ∧ txt_filename ".pdf" = ".pdf.txt"
  ∧ replace_extension ".pdf" = ".txt"
  ∧ txt_filename ".pdf" ≠ replace_extension ".pdf".
Proof. by vm_compute. Qed.

(** C3, amended: for every selected directory entry (a name without path
    separator) that has a character other than a dot before its extension,
    the output name is the name with its last four characters, [.pdf] in
    any letter case, replaced by [.txt]; a selected entry made of dots
    only before [pdf] keeps its whole name and gets [.txt] appended. *)
Theorem C3_output_name (f : string) :
  is_pdf f = true → occurs "/"%char f = false →
  txt_filename f
  = if only_dots (stem_of f) then f ++ ".txt" else replace_extension f.
Proof.
  intros (stem & ext & Hext & ->)%is_pdf_spec Hsep.
  unfold replace_extension. rewrite stem_of_app by done.
  apply txt_filename_stem_ext; [|done]. by eapply occurs_app_l.
Qed.

Lemma C3_output_name_witness :
  txt_filename "b.PDF" = "b.txt" ∧ txt_filename "...pdf" = "...pdf.txt".
Proof.
  split.
  - exact (C3_output_name "b.PDF" eq_refl eq_refl).
  - exact (C3_output_name "...pdf" eq_refl eq_refl).
Defined.

(** C10: an entry whose whole name is [.pdf], in any of the eight
    spellings of its letters, is selected by the filter; [splitext] takes
    the whole name as the root and finds no extension, so the output name
    is the name followed by [.txt] ([.pdf.txt] for [.pdf], [.PDF.txt] for
    [.PDF]), and not [.txt]. *)
Theorem C10_dot_pdf (name : string) :
  name ∈ pdf_extensions →
  is_pdf name = true
  ∧ OsPath.splitext name = (name, "")
  ∧ txt_filename name = name ++ ".txt"
  ∧ txt_filename name ≠ ".txt".
Proof.
  intros H.
  assert (OsPath.splitext name = (name, "")) as Hsplit.
  { by rewrite <- (str_app_nil_l name), splitext_stem_ext. }
  split; [|split; [done|]].
  - apply is_pdf_spec. by exists "", name.
  - unfold txt_filename. rewrite Hsplit. split; [done|].
    simpl. intros Heq. apply (f_equal String.length) in Heq.
    rewrite str_length_app, (pdf_ext_length _ H) in Heq. done.
Qed.

Lemma C10_dot_pdf_witness :
  (".pdf" ∈ pdf_extensions ∧ is_pdf ".pdf" = true
   ∧ txt_filename ".pdf" = ".pdf.txt")
  ∧ (".PDF" ∈ pdf_extensions ∧ is_pdf ".PDF" = true
     ∧ txt_filename ".PDF" = ".PDF.txt")
  ∧ (".pDf" ∈ pdf_extensions ∧ is_pdf ".pDf" = true
     ∧ txt_filename ".pDf" = ".pDf.txt").
Proof.
  assert (".pdf" ∈ pdf_extensions) as H1 by apply list_elem_of_here.
  assert (".PDF" ∈ pdf_extensions) as H2.
  { do 7 apply list_elem_of_further. apply list_elem_of_here. }
  assert (".pDf" ∈ pdf_extensions) as H3.
  { do 2 apply list_elem_of_further. apply list_elem_of_here. }
  split; [|split].
  - destruct (C10_dot_pdf ".pdf" H1) as (Hsel & _ & Hout & _). by split.
  - destruct (C10_dot_pdf ".PDF" H2) as (Hsel & _ & Hout & _). by split.
  - destruct (C10_dot_pdf ".pDf" H3) as (Hsel & _ & Hout & _). by split.
Defined.

(** C8, as the specification states it, fails: [a.pdf] and [a.PDF] are two
    distinct entries, both selected, and both are written to [a.txt]. *)
Lemma C8_counterexample :
  "a.pdf" ≠ "a.PDF" ∧ is_pdf "a.pdf" = true ∧ is_pdf "a.PDF" = true
  ∧ txt_filename "a.pdf" = txt_filename "a.PDF".
Proof. by vm_compute. Qed.

(** C8, amended: two distinct selected entries, each a stem followed by a
    spelling of the extension, have the same output name in two cases
    only: their stems are equal and hold a character other than a dot, so
    that the names differ by the letter case of the extension alone; or
    one entry is made of dots before its extension and the other is this
    whole name followed by one more extension.  In particular entries with
    distinct stems, neither made of dots only, have distinct output names
    whatever the spellings of their extensions. *)
Theorem C8_distinct_outputs (stem1 stem2 ext1 ext2 : string) :
  ext1 ∈ pdf_extensions → ext2 ∈ pdf_extensions →
  occurs "/"%char stem1 = false → occurs "/"%char stem2 = false →
  stem1 ++ ext1 ≠ stem2 ++ ext2 →
  (txt_filename (stem1 ++ ext1) = txt_filename (stem2 ++ ext2)
   ↔ (only_dots stem1 = false ∧ stem1 = stem2)
     ∨ (only_dots stem1 = true ∧ stem2 = stem1 ++ ext1)
     ∨ (only_dots stem2 = true ∧ stem1 = stem2 ++ ext2))
  ∧ (only_dots stem1 = false → only_dots stem2 = false → stem1 ≠ stem2 →
     txt_filename (stem1 ++ ext1) ≠ txt_filename (stem2 ++ ext2)).
Proof.
  intros He1 He2 Hs1 Hs2 Hne.
  rewrite !txt_filename_stem_ext by done.
  pose proof (only_dots_app_ext stem1 ext1 He1) as Hd1.
  pose proof (only_dots_app_ext stem2 ext2 He2) as Hd2.
  destruct (only_dots stem1) eqn:D1, (only_dots stem2) eqn:D2.
  - split; [|done]. split.
    + by intros ?%str_app_inv_tail.
    + intros [[? _]|[[_ ->]|[_ ->]]]; congruence.
  - split; [|done]. split.
    + intros <-%str_app_inv_tail. right. by left.
    + intros [[? _]|[[_ ->]|[? _]]]; done.
  - split; [|done]. split.
    + intros ->%str_app_inv_tail. right. by right.
    + intros [[_ ?]|[[? _]|[_ ->]]]; [|done..]. subst. congruence.
  - split.
    + split.
      * intros ?%str_app_inv_tail. by left.
      * intros [[_ ->]|[[? _]|[? _]]]; done.
    + intros _ _ Hstem ?%str_app_inv_tail. done.
Qed.

Lemma C8_distinct_outputs_witness :
  txt_filename "a.pdf" ≠ txt_filename "b.PDF"
  ∧ txt_filename "a.pdf" = txt_filename "a.PDF"
  ∧ txt_filename ".pdf" = txt_filename ".pdf.PDF"
  ∧ txt_filename ".pdf" ≠ txt_filename ".PDF".
Proof.
  assert (".pdf" ∈ pdf_extensions) as H1 by apply list_elem_of_here.
  assert (".PDF" ∈ pdf_extensions) as H2.
  { do 7 apply list_elem_of_further. apply list_elem_of_here. }
  split_and!.
  - refine (proj2 (C8_distinct_outputs "a" "b" ".pdf" ".PDF" H1 H2
                     eq_refl eq_refl _) eq_refl eq_refl _); discriminate.
  - refine (proj2 (proj1 (C8_distinct_outputs "a" "a" ".pdf" ".PDF" H1 H2
                            eq_refl eq_refl _)) _); [discriminate|].
    left. by split.
  - refine (proj2 (proj1 (C8_distinct_outputs "" ".pdf" ".pdf" ".PDF" H1 H2
                            eq_refl eq_refl _)) _); [discriminate|].
    right. left. by split.
  - intros Heq.
    refine (match proj1 (proj1 (C8_distinct_outputs "" "" ".pdf" ".PDF"
                                  H1 H2 eq_refl eq_refl _)) Heq
            with
            | or_introl (conj Hd _) => _
            | or_intror (or_introl (conj _ Hs)) => _
            | or_intror (or_intror (conj _ Hs)) => _
            end); discriminate.
Defined.

(** ** The claims on the conversion of one file *)



(** C9: the text file is opened only after the PDF has been opened and
    every page read: whatever precedes its opening in the trace is the
    start line, the opening of the PDF and the extraction of all the
    pages.  Hence when the PDF cannot be opened or a page cannot be read,
    no text file is opened or written and the files are left as they
    were. *)
Theorem C9_write_after_extraction (E : env) (filename : string)
    (fs : gmap string string) :
  ∃ fs' t,
    convert_file E filename fs = (Ok tt, fs', t)
    ∧ (∀ e, unreadable E filename e →
         fs' = fs ∧ opened t = [] ∧ ∀ q d, CallWrite q d ∉ t)
    ∧ (∀ t1 t2 p, t = (t1 ++ CallOpen p :: t2)%list →
         ∃ texts,
           PdfReader E (pdf_path E filename) = inr (Extracts <$> texts)
           ∧ p = txt_path E filename
           ∧ t1 = Print (msg_converting filename (txt_filename filename))
                  :: CallPdfReader (pdf_path E filename)
                  :: (CallExtractText (pdf_path E filename)
                        <$> seq 0 (length texts))).
Proof.
  rewrite convert_file_run. eexists _, _. split; [done|]. split.
  - intros e H.
    by destruct (unreadable_no_write E filename e fs H) as (? & ? & ? & _).
  - apply trace_of_open_split.
Qed.

Lemma C9_write_after_extraction_witness :
  unreadable example_env "c.pdf" "bad page"
  ∧ ∃ t, convert_file example_env "c.pdf" {["/d/c.txt" := "old"]}
         = (Ok tt, {["/d/c.txt" := "old"]}, t)
         ∧ opened t = [].
Proof.
  assert (unreadable example_env "c.pdf" "bad page") as H.
  { right. by exists [Extracts None; ExtractRaises "bad page"], 1. }
  split; [exact H|].
  destruct (C9_write_after_extraction example_env "c.pdf"
              {["/d/c.txt" := "old"]}) as (fs' & t & Hrun & Hun & _).
  destruct (Hun _ H) as (-> & Ho & _). by exists t.
Defined.

(** ** The claims on the whole run *)






(** C7, as the specification states it, fails when two selected files
    share their output path and the directory is listed in another order
    the second time: with [a.pdf] and [a.PDF], unchanged, the first run
    leaves the text of [a.PDF] in [a.txt] and the second run, which meets
    [a.PDF] first, leaves the text of [a.pdf] there. *)
Lemma C7_counterexample :
  let E' := with_listdir collision_env ["a.PDF"; "a.pdf"] in
  listdir E' ≡ₚ listdir collision_env
  ∧ ∃ fs1 t1 fs2 t2,
      convert_pdfs_to_txt collision_env ∅ = (Ok tt, fs1, t1)
      ∧ convert_pdfs_to_txt E' fs1 = (Ok tt, fs2, t2)
      ∧ fs1 !! "/d/a.txt" = Some "UPPER"
      ∧ fs2 !! "/d/a.txt" = Some "lower"
      ∧ fs2 ≠ fs1.
Proof.
  intros E'. split; [apply Permutation_swap|].
  eexists _, _, _, _. split; [reflexivity|]. split; [reflexivity|].
  split; [reflexivity|]. split; [reflexivity|].
  intros Heq. apply (f_equal (λ m : gmap string string, m !! "/d/a.txt")) in Heq.
  discriminate Heq.
Qed.

(** C7, amended: a second run on the same directory, with the same
    working directory, the same PDF files giving the same pages and text
    files that can be written as before, leaves every file with the
    content that the first run wrote, when the listing gives the PDF
    entries in the same order (new text files may have appeared in it), or
    in another order and the output paths of the selected files are
    pairwise distinct.  In the first case the second run also prints the
    same lines. *)
Theorem C7_second_run_same_contents (E E' : env) (fs : gmap string string) :
  getcwd E' = getcwd E →
  (∀ p, PdfReader E' p = PdfReader E p) →
  (∀ p d, open_w E' p d = open_w E p d) →
  pdf_files E' = pdf_files E
  ∨ (pdf_files E' ≡ₚ pdf_files E ∧ NoDup (txt_path E <$> pdf_files E)) →
  ∃ fs1 t t',
    convert_pdfs_to_txt E fs = (Ok tt, fs1, t)
    ∧ convert_pdfs_to_txt E' fs1 = (Ok tt, fs1, t')
    ∧ (pdf_files E' = pdf_files E → t' = t).
Proof.
  intros Hcwd Hpdf Hopen Hfiles.
  exists (snd (fst (convert_pdfs_to_txt E fs))),
    (snd (convert_pdfs_to_txt E fs)),
    (snd (convert_pdfs_to_txt E' (snd (fst (convert_pdfs_to_txt E fs))))).
  rewrite !convert_pdfs_to_txt_run.
  assert (pdf_files E' ≡ₚ pdf_files E) as Hperm.
  { by destruct Hfiles as [-> | [? _]]. }
  destruct (pdf_files E) as [|f0 files] eqn:Hf.
  { apply Permutation_nil_r in Hperm. by rewrite Hperm. }
  destruct (pdf_files E') as [|f0' files'] eqn:Hf'.
  { symmetry in Hperm. by apply Permutation_nil_r in Hperm. }
  rewrite <- Hf, <- Hf' in *. clear f0 files Hf f0' files' Hf'. simpl.
  split; [done|]. split.
  - f_equal. f_equal.
    destruct (same_loop E E' Hcwd Hpdf Hopen (pdf_files E')
                (foldl (λ fs f, fs_after E f fs) fs (pdf_files E)))
      as [-> _].
    destruct Hfiles as [-> | [_ Hnd]].
    + apply (foldl_fs_after_twice E (pdf_files E) fs).
    + rewrite <- (foldl_fs_after_perm E _ _ _ Hnd (symmetry Hperm)).
      apply (foldl_fs_after_twice E (pdf_files E) fs).
  - intros Heq. rewrite Heq.
    by destruct (same_loop E E' Hcwd Hpdf Hopen (pdf_files E) fs) as [_ ->].
Qed.

Lemma C7_second_run_same_contents_witness :
  let E' := with_listdir two_pdf_env
              ["notes.txt"; "b.PDF"; "a.pdf"; "b.txt"; "a.txt"] in
  pdf_files E' = pdf_files two_pdf_env
  ∧ ∃ fs1 t,
      convert_pdfs_to_txt two_pdf_env ∅ = (Ok tt, fs1, t)
      ∧ convert_pdfs_to_txt E' fs1 = (Ok tt, fs1, t).
Proof.
  intros E'. split; [reflexivity|].
  destruct (C7_second_run_same_contents two_pdf_env E' ∅ eq_refl
              (λ _, eq_refl) (λ _ _, eq_refl) (or_introl eq_refl))
    as (fs1 & t & t' & H1 & H2 & Ht).
  exists fs1, t. split; [exact H1|]. by rewrite <- (Ht eq_refl).
Defined.

(** C4: the selected entries are exactly the entries of the listing whose
    name ends in [.pdf], in any letter case.  For a directory that holds
    [a.pdf], [b.PDF] and [notes.txt], listed in any order, the output names
    are [a.txt] and [b.txt]; when both PDF files convert, the text files
    opened for writing are exactly these two, and they are the only paths
    added to the files. *)
Theorem C4_selection :
  (∀ (E : env) (f : string),
     f ∈ pdf_files E ↔ f ∈ listdir E ∧ ends_with_pdf f)
  ∧ (∀ (E : env) (fs : gmap string string) ta tb,
       listdir E ≡ₚ ["a.pdf"; "b.PDF"; "notes.txt"] →
       converts E "a.pdf" ta → converts E "b.PDF" tb →
       ∃ fs' t,
         convert_pdfs_to_txt E fs = (Ok tt, fs', t)
         ∧ txt_filename <$> pdf_files E ≡ₚ ["a.txt"; "b.txt"]
         ∧ opened t ≡ₚ [OsPath.join (getcwd E) "a.txt";
                        OsPath.join (getcwd E) "b.txt"]
         ∧ dom fs' = dom fs ∪ {[OsPath.join (getcwd E) "a.txt";
                                OsPath.join (getcwd E) "b.txt"]}).
Proof.
  split.
  - intros E f. unfold pdf_files. rewrite list_elem_of_filter, is_pdf_spec.
    tauto.
  - intros E fs ta tb Hl Ha Hb.
    assert (pdf_files E ≡ₚ ["a.pdf"; "b.PDF"]) as Hfiles.
    { unfold pdf_files. by rewrite Hl. }
    assert (txt_path E "a.pdf" = OsPath.join (getcwd E) "a.txt") as Hpa
      by reflexivity.
    assert (txt_path E "b.PDF" = OsPath.join (getcwd E) "b.txt") as Hpb
      by reflexivity.
    rewrite convert_pdfs_to_txt_run.
    symmetry in Hfiles.
    apply Permutation_length_2_inv in Hfiles as [Hfiles|Hfiles];
      rewrite Hfiles; (eexists _, _; split; [done|]);
      rewrite opened_run_trace;
      change (mjoin (?g <$> [?x; ?y])) with (g x ++ g y ++ [])%list;
      change (foldl ?g ?a [?x; ?y]) with (g (g a x) y);
      cbv beta; rewrite !opened_trace_of; unfold fs_after;
      rewrite (outcome_converts E _ _ Ha), (outcome_converts E _ _ Hb);
      cbn [written_data app]; rewrite !dom_insert_L, Hpa, Hpb.
    + split_and!; [done..|].
      apply set_eq. intros x. rewrite !elem_of_union, !elem_of_singleton. tauto.
    + split_and!; [apply Permutation_swap..|].
      apply set_eq. intros x. rewrite !elem_of_union, !elem_of_singleton. tauto.
Qed.

Lemma C4_selection_witness :
  listdir two_pdf_env ≡ₚ ["a.pdf"; "b.PDF"; "notes.txt"]
  ∧ converts two_pdf_env "a.pdf" [Some "A"]
  ∧ converts two_pdf_env "b.PDF" [Some "B1"; Some "B2"]
  ∧ ∃ fs' t,
      convert_pdfs_to_txt two_pdf_env ∅ = (Ok tt, fs', t)
      ∧ opened t ≡ₚ ["/d/a.txt"; "/d/b.txt"]
      ∧ dom fs' = {["/d/a.txt"; "/d/b.txt"]}.
Proof.
  assert (listdir two_pdf_env ≡ₚ ["a.pdf"; "b.PDF"; "notes.txt"]) as Hl.
  { symmetry. apply (Permutation_rev ["a.pdf"; "b.PDF"; "notes.txt"]). }
  assert (converts two_pdf_env "a.pdf" [Some "A"]) as Ha
    by (split; reflexivity).
  assert (converts two_pdf_env "b.PDF" [Some "B1"; Some "B2"]) as Hb
    by (split; reflexivity).
  split_and!; [exact Hl|exact Ha|exact Hb|].
  destruct (proj2 C4_selection two_pdf_env ∅ _ _ Hl Ha Hb)
    as (fs' & t & Hrun & _ & Ho & Hdom).
  exists fs', t. split_and!; [exact Hrun|exact Ho|].
  rewrite Hdom, dom_empty_L. apply (left_id_L ∅ (∪)).
Defined.

(** ** More facts, for the properties below *)

Section MoreFacts.

Local Open Scope list_scope.

Variable E : env.

Lemma join_suffix (a b : string) : ∃ x, OsPath.join a b = (x +:+ b)%string.
Proof.
  unfold OsPath.join. destruct (Str.startswith _ _); [by exists ""|].
  destruct (_ || _); [by exists a|].
  exists (a +:+ String OsPath.sep ""). by rewrite str_app_assoc.
Qed.

(** Two strings that are equal and end in four characters each end in the
    same four. *)
Lemma str_app_inj_tail4 (s1 s2 t1 t2 : string) :
  String.length t1 = 4 → String.length t2 = 4 →
  (s1 +:+ t1 = s2 +:+ t2)%string → t1 = t2.
Proof.
  intros H1 H2 H. apply str_app_inj_length in H as [_ ?]; [done|].
  apply (f_equal String.length) in H. rewrite !str_length_app in H. lia.
Qed.

Lemma txt_ne_pdf_ext (ext : string) : ext ∈ pdf_extensions → ".txt" ≠ ext.
Proof.
  unfold pdf_extensions. rewrite !elem_of_cons, elem_of_nil.
  intros H. by repeat destruct H as [-> | H].
Qed.

Lemma run_files fs :
  snd (fst (convert_pdfs_to_txt E fs))
  = foldl (λ fs f, fs_after E f fs) fs (pdf_files E).
Proof.
  rewrite convert_pdfs_to_txt_run. by destruct (pdf_files E).
Qed.

Lemma run_never_raises fs : fst (fst (convert_pdfs_to_txt E fs)) = Ok tt.
Proof.
  rewrite convert_pdfs_to_txt_run. by destruct (pdf_files E).
Qed.

Lemma run_trace fs :
  snd (convert_pdfs_to_txt E fs)
  = match pdf_files E with
    | [] => [Print msg_none]
    | _ :: _ =>
        Print (msg_found (length (pdf_files E))) ::
        mjoin (trace_of E <$> pdf_files E) ++ [Print msg_done]
    end.
Proof.
  rewrite convert_pdfs_to_txt_run. by destruct (pdf_files E).
Qed.

Lemma printed_app (t1 t2 : list event) :
  printed (t1 ++ t2) = printed t1 ++ printed t2.
Proof. apply omap_app. Qed.

Lemma printed_extracts path (l : list nat) :
  printed (CallExtractText path <$> l) = [].
Proof. induction l as [|i l IH]; [done|]. by rewrite fmap_cons. Qed.

Lemma elem_of_printed (t : list event) line :
  Print line ∈ t ↔ line ∈ printed t.
Proof.
  unfold printed. rewrite list_elem_of_omap. split.
  - intros H. by exists (Print line).
  - intros ([] & H & ?); by simplify_eq.
Qed.

(** A file prints two lines: its start line and its result line. *)
Lemma printed_trace_of filename :
  printed (trace_of E filename)
  = [msg_converting filename (txt_filename filename);
     match caught (outcome_of E filename) with
     | Some e => msg_error filename e
     | None => msg_success (txt_filename filename)
     end].
Proof.
  unfold trace_of, calls_of.
  destruct (outcome_of E filename);
    rewrite ?app_comm_cons, ?printed_app;
    change (printed (Print ?x :: CallPdfReader ?y :: ?l))
      with (x :: printed l);
    rewrite ?printed_app, ?printed_extracts; done.
Qed.

Lemma printed_join_traces (files : list string) :
  printed (mjoin (trace_of E <$> files))
  = mjoin ((λ f, printed (trace_of E f)) <$> files).
Proof.
  induction files as [|f files IH]; [done|].
  rewrite !fmap_cons. simpl. by rewrite printed_app, IH.
Qed.

Lemma writes_app (t1 t2 : list event) :
  writes (t1 ++ t2) = writes t1 ++ writes t2.
Proof. apply omap_app. Qed.

Lemma writes_extracts path (l : list nat) :
  writes (CallExtractText path <$> l) = [].
Proof. induction l as [|i l IH]; [done|]. by rewrite fmap_cons. Qed.

(** A file makes at most one write, to its own text file, of the text of
    its pages. *)
Lemma writes_trace_of filename :
  writes (trace_of E filename)
  = match outcome_of E filename with
    | WriteFailed data _ _ | Converted data => [(txt_path E filename, data)]
    | _ => []
    end.
Proof.
  unfold trace_of, calls_of.
  destruct (outcome_of E filename);
    rewrite ?app_comm_cons, ?writes_app;
    change (writes (Print ?x :: CallPdfReader ?y :: ?l)) with (writes l);
    rewrite ?writes_app, ?writes_extracts; done.
Qed.

Lemma outcome_converted_inv filename data :
  outcome_of E filename = Converted data →
  ∃ texts, converts E filename texts ∧ data = text_of texts.
Proof.
  unfold outcome_of, converts.
  destruct (PdfReader E _) as [e|pages] eqn:Hpdf; [done|].
  destruct (first_raise pages) as [[k e]|] eqn:Hk; [done|].
  apply first_raise_None in Hk.
  destruct (open_w E _ _) as [|e|e written] eqn:Hw; intros [= <-].
  exists (texts_of pages). by rewrite <- Hk.
Qed.

Lemma nonempty_texts_app (t1 t2 : list (option string)) :
  nonempty_texts (t1 ++ t2) = nonempty_texts t1 ++ nonempty_texts t2.
Proof. unfold nonempty_texts. by rewrite omap_app, filter_app. Qed.

Lemma nonempty_texts_nil (texts : list (option string)) :
  (∀ t, t ∈ texts → t = None ∨ t = Some EmptyString) →
  nonempty_texts texts = [].
Proof.
  induction texts as [|t texts IH]; [done|]. intros H.
  rewrite nonempty_texts_cons, IH.
  - destruct (H t) as [-> | ->]; [apply list_elem_of_here|done..].
  - intros t' Ht'. apply H. by apply list_elem_of_further.
Qed.

Lemma join_cons_cons sep x y (l : list string) :
  Str.join sep (x :: y :: l) = (x +:+ sep +:+ Str.join sep (y :: l))%string.
Proof. reflexivity. Qed.

Lemma join_app sep (l1 l2 : list string) :
  l1 ≠ [] → l2 ≠ [] →
  Str.join sep (l1 ++ l2)
  = (Str.join sep l1 +:+ sep +:+ Str.join sep l2)%string.
Proof.
  intros H1 H2. induction l1 as [|x [|y l1] IH]; [done| |].
  - destruct l2 as [|z l2]; [done|]. reflexivity.
  - change ((x :: y :: l1) ++ l2) with (x :: y :: (l1 ++ l2)).
    rewrite !join_cons_cons.
    change (y :: l1 ++ l2) with ((y :: l1) ++ l2).
    rewrite IH by done. by rewrite !str_app_assoc.
Qed.

Lemma first_raise_app (texts : list (option string)) e (post : list page) :
  first_raise ((Extracts <$> texts) ++ ExtractRaises e :: post)
  = Some (length texts, e).
Proof.
  induction texts as [|t texts IH]; [done|].
  rewrite fmap_cons. change ((?x :: ?l) ++ ?r) with (x :: (l ++ r)).
  cbn [first_raise]. by rewrite IH.
Qed.

(** The last file of the list that has a given output path decides what
    the path holds, when it writes. *)
Lemma last_write_last (l1 l2 : list string) v d :
  written_data (outcome_of E v) = Some d →
  (∀ w, w ∈ l2 → txt_path E w ≠ txt_path E v) →
  last_write E (txt_path E v) (l1 ++ v :: l2) = Some d.
Proof.
  intros Hv. induction l2 as [|w l2 IH] using rev_ind; intros Hl2.
  - by rewrite last_write_snoc, Hv, decide_True.
  - rewrite app_comm_cons, app_assoc, last_write_snoc.
    assert (txt_path E w ≠ txt_path E v) as Hne.
    { apply Hl2, elem_of_app. right. apply list_elem_of_here. }
    assert (last_write E (txt_path E v) (l1 ++ v :: l2) = Some d) as ->.
    { apply IH. intros w' Hw'. apply Hl2, elem_of_app. by left. }
    destruct (written_data (outcome_of E w)); [by rewrite decide_False|done].
Qed.

End MoreFacts.

Lemma first_char_app a (s t : string) :
  first_char (String a s +:+ t) = Some a.
Proof. reflexivity. Qed.

Section RunShape.

Local Open Scope list_scope.

Variable E : env.

Lemma run_split fs :
  convert_pdfs_to_txt E fs
  = (Ok tt, snd (fst (convert_pdfs_to_txt E fs)),
     snd (convert_pdfs_to_txt E fs)).
Proof.
  rewrite <- (run_never_raises E fs).
  by destruct (convert_pdfs_to_txt E fs) as [[r fs'] t].
Qed.

Lemma elem_of_writes (t : list event) p d :
  CallWrite p d ∈ t ↔ (p, d) ∈ writes t.
Proof.
  unfold writes. rewrite list_elem_of_omap. split.
  - intros H. by exists (CallWrite p d).
  - intros ([] & H & ?); by simplify_eq.
Qed.

(** A path whose content changes during the run is the output path of a
    selected file. *)
Lemma changed_is_output fs k :
  snd (fst (convert_pdfs_to_txt E fs)) !! k ≠ fs !! k →
  ∃ f, f ∈ pdf_files E ∧ k = txt_path E f.
Proof.
  rewrite run_files, lookup_foldl_fs_after.
  destruct (last_write E k (pdf_files E)) as [d|] eqn:Hlw; [|done].
  apply last_write_Some_inv in Hlw as (w & Hw & Hk & _). by exists w.
Qed.

(** So is a path that the run opens for writing. *)
Lemma opened_is_output fs k :
  k ∈ opened (snd (convert_pdfs_to_txt E fs)) →
  ∃ f, f ∈ pdf_files E ∧ k = txt_path E f.
Proof.
  rewrite run_trace.
  destruct (pdf_files E) as [|f0 files] eqn:Hf.
  { by intros ?%elem_of_nil. }
  rewrite <- Hf. clear f0 files Hf. rewrite opened_run_trace.
  intros (l & Hk & (f & -> & Hf)%list_elem_of_fmap_1)%list_elem_of_join.
  exists f. split; [done|]. rewrite opened_trace_of in Hk.
  destruct (outcome_of E f); rewrite ?list_elem_of_singleton in Hk;
    done || by apply elem_of_nil in Hk.
Qed.

(** An output path is never the path of a selected PDF. *)
Lemma txt_path_ne_pdf_path f g :
  is_pdf g = true → txt_path E f ≠ pdf_path E g.
Proof.
  intros (stem & ext & Hext & ->)%is_pdf_spec. unfold txt_path, pdf_path.
  destruct (join_suffix (getcwd E) (txt_filename f)) as [x1 ->].
  destruct (join_suffix (getcwd E) (stem +:+ ext)) as [x2 ->].
  unfold txt_filename. rewrite <- !str_app_assoc. intros H.
  apply str_app_inj_tail4 in H; [|done|by apply pdf_ext_length].
  by apply (txt_ne_pdf_ext ext).
Qed.

Lemma Print_inj (a b : string) : Print a = Print b → a = b.
Proof. by intros [= ->]. Qed.

Lemma msg_success_inj (x y : string) : msg_success x = msg_success y → x = y.
Proof.
  unfold msg_success. intros H%(inj (String.app _)).
  by apply str_app_inv_tail in H.
Qed.

(** The success line of a name is no other line of the script. *)
Lemma msg_success_other (x : string) :
  msg_success x ≠ msg_none
  ∧ (∀ n, msg_success x ≠ msg_found n)
  ∧ msg_success x ≠ msg_done
  ∧ (∀ f y, msg_success x ≠ msg_converting f y)
  ∧ (∀ f e, msg_success x ≠ msg_error f e).
Proof.
  split_and!; intros; intros H; apply (f_equal first_char) in H;
    discriminate H.
Qed.

End RunShape.

(** ** Further properties of the converter *)

(** X3: the success line of an output name is printed only for a selected
    file with this output name whose PDF opened, whose pages were all read
    and whose text file was written in full: the run then contains the
    write of the whole text to the path of the file. *)
Theorem X3_success_means_written (E : env) (fs : gmap string string)
    (x : string) :
  Print (msg_success x) ∈ snd (convert_pdfs_to_txt E fs) →
  ∃ f texts,
    f ∈ pdf_files E ∧ x = txt_filename f ∧ converts E f texts
    ∧ CallWrite (txt_path E f) (Str.join newline (nonempty_texts texts))
      ∈ snd (convert_pdfs_to_txt E fs).
Proof.
  destruct (msg_success_other x) as (Hnone & Hfound & Hdone & Hconv & Herr).
  rewrite run_trace. destruct (pdf_files E) as [|f0 files] eqn:Hf.
  { by intros Heq%list_elem_of_singleton%Print_inj. }
  rewrite <- Hf. clear f0 files Hf.
  rewrite elem_of_cons, elem_of_app, list_elem_of_singleton.
  intros [Heq%Print_inj|[Hin|Heq%Print_inj]];
    [by apply Hfound in Heq| |done].
  apply list_elem_of_join in Hin
    as (l & Hin & (f & -> & Hfin)%list_elem_of_fmap_1).
  apply elem_of_printed in Hin. rewrite printed_trace_of in Hin.
  rewrite !elem_of_cons, elem_of_nil in Hin.
  destruct Hin as [Heq|[Heq|[]]]; [by apply Hconv in Heq|].
  destruct (outcome_of E f) as [e|k e|d e|d e w|data] eqn:Ho; simpl in Heq;
    try by apply Herr in Heq.
  apply msg_success_inj in Heq as ->.
  destruct (outcome_converted_inv E f data Ho) as (texts & Hconverts & ->).
  exists f, texts. split_and!; [done..|].
  apply list_elem_of_further, elem_of_app. left.
  apply trace_of_in_run with f; [done|].
  apply elem_of_writes. rewrite writes_trace_of, Ho.
  apply list_elem_of_here.
Qed.

Lemma X3_success_means_written_witness :
  Print (msg_success "a.txt") ∈ snd (convert_pdfs_to_txt example_env ∅)
  ∧ ∃ f texts,
      f ∈ pdf_files example_env ∧ "a.txt" = txt_filename f
      ∧ converts example_env f texts.
Proof.
  assert (Print (msg_success "a.txt")
          ∈ snd (convert_pdfs_to_txt example_env ∅)) as H.
  { rewrite run_example_env. do 8 apply list_elem_of_further.
    apply list_elem_of_here. }
  split; [exact H|].
  destruct (X3_success_means_written example_env ∅ "a.txt" H)
    as (f & texts & ? & ? & ? & _).
  by exists f, texts.
Defined.

(** X4: the run changes, and opens for writing, no path but the output
    paths of the selected files: a path whose content differs after the run
    and a path that the run opens is the text path of a file of the
    selection. *)
Theorem X4_only_outputs_touched (E : env) (fs : gmap string string) :
  ∃ fs' t,
    convert_pdfs_to_txt E fs = (Ok tt, fs', t)
    ∧ (∀ k, fs' !! k ≠ fs !! k → ∃ f, f ∈ pdf_files E ∧ k = txt_path E f)
    ∧ (∀ k, k ∈ opened t → ∃ f, f ∈ pdf_files E ∧ k = txt_path E f).
Proof.
  eexists _, _. split; [apply run_split|]. split.
  - apply changed_is_output.
  - apply opened_is_output.
Qed.

Lemma X4_only_outputs_touched_witness :
  ∃ fs' t,
    convert_pdfs_to_txt example_env {["/d/notes.txt" := "mine"]}
    = (Ok tt, fs', t)
    ∧ fs' !! "/d/notes.txt" = Some "mine".
Proof.
  destruct (X4_only_outputs_touched example_env {["/d/notes.txt" := "mine"]})
    as (fs' & t & Hrun & Hchanged & _).
  exists fs', t. split; [exact Hrun|].
  destruct (decide (fs' !! "/d/notes.txt"
                    = ({["/d/notes.txt" := "mine"]} : gmap string string)
                        !! "/d/notes.txt")) as [Heq|Hne]; [exact Heq|].
  destruct (Hchanged _ Hne) as (f & Hf & Hk). exfalso.
  change (pdf_files example_env) with ["a.pdf"; "b.PDF"; "c.pdf"] in Hf.
  rewrite !elem_of_cons, elem_of_nil in Hf.
  destruct Hf as [-> | [-> | [-> | []]]]; discriminate Hk.
Defined.

(** X5: the text path of a file is never the path of a PDF that the filter
    selects; hence the run neither changes nor opens for writing the path
    of a selected PDF. *)
Theorem X5_inputs_never_written (E : env) (g : string) :
  is_pdf g = true →
  (∀ f, txt_path E f ≠ pdf_path E g)
  ∧ ∀ fs, ∃ fs' t,
      convert_pdfs_to_txt E fs = (Ok tt, fs', t)
      ∧ fs' !! pdf_path E g = fs !! pdf_path E g
      ∧ pdf_path E g ∉ opened t.
Proof.
  intros Hg. split; [intros f; by apply txt_path_ne_pdf_path|].
  intros fs. eexists _, _. split; [apply run_split|]. split.
  - destruct (decide (snd (fst (convert_pdfs_to_txt E fs)) !! pdf_path E g
                      = fs !! pdf_path E g)) as [Heq|Hne]; [done|].
    apply changed_is_output in Hne as (f & _ & Hk).
    symmetry in Hk. by apply txt_path_ne_pdf_path in Hk.
  - intros (f & _ & Hk)%opened_is_output.
    symmetry in Hk. by apply txt_path_ne_pdf_path in Hk.
Qed.

Lemma X5_inputs_never_written_witness :
  is_pdf "a.PDF" = true
  ∧ ∃ fs' t,
      convert_pdfs_to_txt collision_env {["/d/a.PDF" := "%PDF"]}
      = (Ok tt, fs', t)
      ∧ fs' !! "/d/a.PDF" = Some "%PDF".
Proof.
  split; [reflexivity|].
  destruct (proj2 (X5_inputs_never_written collision_env "a.PDF" eq_refl)
              {["/d/a.PDF" := "%PDF"]}) as (fs' & t & Hrun & Hsame & _).
  exists fs', t. split; [exact Hrun|]. exact Hsame.
Defined.

(** X6: when several selected files have the same output path, the path
    holds the text of the one that comes last in the listing: a file that
    converts, and that no later file of the selection shares its output
    path with, leaves its text in it, whatever earlier files wrote
    there. *)
Theorem X6_last_writer_wins (E : env) (fs : gmap string string)
    (l1 l2 : list string) (v : string) (texts : list (option string)) :
  pdf_files E = (l1 ++ v :: l2)%list →
  converts E v texts →
  (∀ w, w ∈ l2 → txt_path E w ≠ txt_path E v) →
  ∃ fs' t,
    convert_pdfs_to_txt E fs = (Ok tt, fs', t)
    ∧ fs' !! txt_path E v = Some (Str.join newline (nonempty_texts texts)).
Proof.
  intros Hfiles Hconv Hl2. eexists _, _. split; [apply run_split|].
  rewrite run_files, lookup_foldl_fs_after, Hfiles.
  rewrite (last_write_last E l1 l2 v (text_of texts)); [done| |done].
  by rewrite (outcome_converts E _ _ Hconv).
Qed.

Lemma X6_last_writer_wins_witness :
  pdf_files collision_env = (["a.pdf"] ++ "a.PDF" :: [])%list
  ∧ converts collision_env "a.PDF" [Some "UPPER"]
  ∧ ∃ fs' t,
      convert_pdfs_to_txt collision_env ∅ = (Ok tt, fs', t)
      ∧ fs' !! "/d/a.txt" = Some "UPPER".
Proof.
  assert (converts collision_env "a.PDF" [Some "UPPER"]) as Hconv
    by (split; reflexivity).
  split; [reflexivity|]. split; [exact Hconv|].
  exact (X6_last_writer_wins collision_env ∅ ["a.pdf"] [] "a.PDF"
           [Some "UPPER"] eq_refl Hconv
           (λ w Hw, False_ind _ (proj1 (elem_of_nil w) Hw))).
Defined.

(** X7: a PDF that opens and none of whose pages has text (no page at all,
    or pages that return nothing or the empty string) still gets its text
    file: the file is created or emptied, and the success line is
    printed. *)
Theorem X7_no_text_gives_empty_file (E : env) (f : string)
    (fs : gmap string string) (texts : list (option string)) :
  converts E f texts →
  (∀ t, t ∈ texts → t = None ∨ t = Some EmptyString) →
  ∃ t,
    convert_file E f fs = (Ok tt, <[txt_path E f := EmptyString]> fs, t)
    ∧ CallWrite (txt_path E f) EmptyString ∈ t
    ∧ last t = Some (Print (msg_success (txt_filename f))).
Proof.
  intros Hconv Hnone. rewrite convert_file_run. eexists. split; [|split].
  - unfold fs_after. rewrite (outcome_converts E _ _ Hconv). simpl.
    unfold text_of. by rewrite (nonempty_texts_nil _ Hnone).
  - apply elem_of_writes. rewrite writes_trace_of.
    rewrite (outcome_converts E _ _ Hconv). unfold text_of.
    rewrite (nonempty_texts_nil _ Hnone). apply list_elem_of_here.
  - rewrite last_trace_of. by rewrite (outcome_converts E _ _ Hconv).
Qed.

Lemma X7_no_text_gives_empty_file_witness :
  converts scan_env "scan.pdf" [None; Some ""]
  ∧ ∃ t, convert_file scan_env "scan.pdf" {["/d/scan.txt" := "old text"]}
         = (Ok tt, {["/d/scan.txt" := ""]}, t).
Proof.
  assert (converts scan_env "scan.pdf" [None; Some ""]) as Hconv
    by (split; reflexivity).
  split; [exact Hconv|].
  destruct (X7_no_text_gives_empty_file scan_env "scan.pdf"
              {["/d/scan.txt" := "old text"]} [None; Some ""] Hconv)
    as (t & Hrun & _).
  { intros t. rewrite !elem_of_cons, elem_of_nil. intros [->|[->|[]]]; auto. }
  exists t. rewrite Hrun. reflexivity.
Defined.

(** X8: the first page whose extraction raises ends the reading of the
    PDF: the pages before it have been read, the pages after it are never
    read, the texts already read are dropped, no text file is opened, and
    the error line carries the exception of that page. *)
Theorem X8_first_bad_page_stops (E : env) (f : string)
    (fs : gmap string string) (texts : list (option string))
    (e : Exception) (post : list page) :
  PdfReader E (pdf_path E f)
  = inr ((Extracts <$> texts) ++ ExtractRaises e :: post)%list →
  convert_file E f fs
  = (Ok tt, fs,
     (Print (msg_converting f (txt_filename f))
      :: CallPdfReader (pdf_path E f)
      :: (CallExtractText (pdf_path E f) <$> seq 0 (S (length texts)))
      ++ [Print (msg_error f e)])%list).
Proof.
  intros Hpdf. rewrite convert_file_run.
  unfold fs_after, trace_of, calls_of, outcome_of.
  by rewrite Hpdf, first_raise_app.
Qed.

Lemma X8_first_bad_page_stops_witness :
  convert_file example_env "c.pdf" ∅
  = (Ok tt, ∅,
     [Print (msg_converting "c.pdf" "c.txt"); CallPdfReader "/d/c.pdf";
      CallExtractText "/d/c.pdf" 0; CallExtractText "/d/c.pdf" 1;
      Print (msg_error "c.pdf" "bad page")]).
Proof.
  exact (X8_first_bad_page_stops example_env "c.pdf" ∅ [None] "bad page" []
           eq_refl).
Defined.

(** X9: the text written for a PDF whose pages are those of [t1] followed
    by those of [t2] is the text for [t1], one newline, and the text for
    [t2]; when one of the two parts has no page with text, it is the text
    of the other part alone: pages without text add no newline, at the
    start, at the end or in between. *)
Theorem X9_text_of_page_ranges (E : env) (f : string)
    (fs : gmap string string) (t1 t2 : list (option string)) :
  converts E f (t1 ++ t2)%list →
  ∃ fs' t,
    convert_file E f fs = (Ok tt, fs', t)
    ∧ fs' !! txt_path E f
      = Some (let a := Str.join newline (nonempty_texts t1) in
              let b := Str.join newline (nonempty_texts t2) in
              if decide (nonempty_texts t1 = []) then b
              else if decide (nonempty_texts t2 = []) then a
              else a +:+ newline +:+ b).
Proof.
  intros Hconv. rewrite convert_file_run. eexists _, _. split; [done|].
  unfold fs_after. rewrite (outcome_converts E _ _ Hconv). simpl.
  rewrite lookup_insert_eq. f_equal. unfold text_of.
  rewrite nonempty_texts_app.
  destruct (decide (nonempty_texts t1 = [])) as [->|H1]; [done|].
  destruct (decide (nonempty_texts t2 = [])) as [->|H2].
  - by rewrite app_nil_r.
  - by apply join_app.
Qed.

Lemma X9_text_of_page_ranges_witness :
  converts example_env "a.pdf" ([Some "Hello"; Some ""] ++ [Some "World"])%list
  ∧ ∃ fs' t,
      convert_file example_env "a.pdf" ∅ = (Ok tt, fs', t)
      ∧ fs' !! "/d/a.txt" = Some ("Hello" +:+ newline +:+ "World").
Proof.
  assert (converts example_env "a.pdf"
            ([Some "Hello"; Some ""] ++ [Some "World"])%list) as Hconv
    by (split; reflexivity).
  split; [exact Hconv|].
  exact (X9_text_of_page_ranges example_env "a.pdf" ∅ _ _ Hconv).
Defined.

(** X10: the files are converted one after the other, each on its own: the
    files left by a run on a directory listed as [l1] followed by [l2] are
    those left by a run on [l1] followed by a run on [l2]. *)
Theorem X10_runs_compose (E : env) (l1 l2 : list string)
    (fs : gmap string string) :
  snd (fst (convert_pdfs_to_txt (with_listdir E (l1 ++ l2)%list) fs))
  = snd (fst (convert_pdfs_to_txt (with_listdir E l2)
                (snd (fst (convert_pdfs_to_txt (with_listdir E l1) fs))))).
Proof.
  rewrite !run_files. unfold pdf_files. simpl.
  by rewrite filter_app, foldl_app.
Qed.

(** X11: the run never reads a text file: the calls it makes and the lines
    it prints are the same whatever the files hold before it, and a path
    that holds the same content before two runs holds the same content
    after them. *)
Theorem X11_files_not_read (E : env) (fs1 fs2 : gmap string string) :
  snd (convert_pdfs_to_txt E fs1) = snd (convert_pdfs_to_txt E fs2)
  ∧ ∀ k, fs1 !! k = fs2 !! k →
         snd (fst (convert_pdfs_to_txt E fs1)) !! k
         = snd (fst (convert_pdfs_to_txt E fs2)) !! k.
Proof.
  split; [by rewrite !run_trace|].
  intros k Hk. rewrite !run_files, !lookup_foldl_fs_after.
  by destruct (last_write E k (pdf_files E)).
Qed.

Lemma X11_files_not_read_witness :
  snd (fst (convert_pdfs_to_txt example_env {["/d/a.txt" := "old"]}))
    !! "/d/b.txt"
  = snd (fst (convert_pdfs_to_txt example_env ∅)) !! "/d/b.txt".
Proof.
  exact (proj2 (X11_files_not_read example_env {["/d/a.txt" := "old"]} ∅)
           "/d/b.txt" eq_refl).
Defined.

(** X12: an output name is never selected by the filter, so that the text
    files of an earlier run, added to the listing, leave the selection as
    it is: a second run does not convert the outputs of the first. *)
Theorem X12_outputs_not_selected (E : env) (l : list string) :
  (∀ f, is_pdf (txt_filename f) = false)
  ∧ pdf_files (with_listdir E (listdir E ++ (txt_filename <$> l))%list)
    = pdf_files E.
Proof.
  split; [apply is_pdf_txt_filename|].
  unfold pdf_files. simpl. rewrite filter_app.
  assert (filter (λ f, is_pdf f = true) (txt_filename <$> l) = []) as ->.
  { induction l as [|f l IH]; [done|]. rewrite fmap_cons.
    rewrite filter_cons_False; [done|].
    by rewrite is_pdf_txt_filename. }
  apply app_nil_r.
Qed.

(** X13: when the text file cannot be written, the failure is reported for
    the file and the loop goes on, after every page has been read.  If the
    file cannot be opened, the files are left as they were; if the writing
    fails once the file is open, the path holds what had been written by
    then, in place of its former content. *)
Theorem X13_write_failure (E : env) (f : string) (fs : gmap string string)
    (texts : list (option string)) :
  PdfReader E (pdf_path E f) = inr (Extracts <$> texts) →
  let data := Str.join newline (nonempty_texts texts) in
  let reading :=
    (Print (msg_converting f (txt_filename f))
     :: CallPdfReader (pdf_path E f)
     :: (CallExtractText (pdf_path E f) <$> seq 0 (length texts)))%list in
  (∀ e, open_w E (txt_path E f) data = OpenRaises e →
        convert_file E f fs
        = (Ok tt, fs,
           (reading ++ [CallOpen (txt_path E f);
                        Print (msg_error f e)])%list))
  ∧ (∀ e written, open_w E (txt_path E f) data = WriteRaises e written →
        convert_file E f fs
        = (Ok tt, <[txt_path E f := written]> fs,
           (reading ++ [CallOpen (txt_path E f);
                        CallWrite (txt_path E f) data;
                        Print (msg_error f e)])%list)).
Proof.
  intros Hpdf data reading. unfold data, reading.
  split; [intros e Hw|intros e written Hw];
    rewrite convert_file_run;
    unfold fs_after, trace_of, calls_of, outcome_of, text_of;
    rewrite Hpdf, first_raise_fmap, texts_of_fmap, Hw, length_fmap; simpl;
    by rewrite <- app_assoc.
Qed.

Lemma X13_write_failure_witness :
  convert_file readonly_env "a.pdf" {["/d/a.txt" := "old"]}
  = (Ok tt, {["/d/a.txt" := "old"]},
     [Print (msg_converting "a.pdf" "a.txt"); CallPdfReader "/d/a.pdf";
      CallExtractText "/d/a.pdf" 0; CallOpen "/d/a.txt";
      Print (msg_error "a.pdf" "denied")])
  ∧ convert_file readonly_env "b.pdf" {["/d/b.txt" := "old"]}
    = (Ok tt, {["/d/b.txt" := "te"]},
       [Print (msg_converting "b.pdf" "b.txt"); CallPdfReader "/d/b.pdf";
        CallExtractText "/d/b.pdf" 0; CallOpen "/d/b.txt";
        CallWrite "/d/b.txt" "text";
        Print (msg_error "b.pdf" "disk full")]).
Proof.
  split.
  - exact (proj1 (X13_write_failure readonly_env "a.pdf"
                    {["/d/a.txt" := "old"]} [Some "text"] eq_refl)
             "denied" eq_refl).
  - exact (proj2 (X13_write_failure readonly_env "b.pdf"
                    {["/d/b.txt" := "old"]} [Some "text"] eq_refl)
             "disk full" "te" eq_refl).
Defined.

(** ** The converter on a host *)

Section HostFacts.

Local Open Scope list_scope.

Variable H : host.

Lemma print_on_accepted line fs :
  host_stdout H line = None → print_on H line fs = print line fs.
Proof. intros Hline. unfold print_on. by rewrite Hline. Qed.

(** The lines to print are those that the run prints when every line can
    be printed. *)
Lemma printed_run (E : env) fs :
  printed (snd (convert_pdfs_to_txt E fs)) = lines_to_print E.
Proof.
  rewrite run_trace. unfold lines_to_print.
  destruct (pdf_files E) as [|f0 files] eqn:Hf; [done|].
  rewrite <- Hf. clear f0 files Hf.
  change (printed (Print ?x :: ?l)) with (x :: printed l).
  rewrite printed_app, printed_join_traces. do 3 f_equal.
  apply list_fmap_ext. intros _ f _. apply printed_trace_of.
Qed.

(** One turn of the loop on a host that accepts the two lines of the file
    is the turn of the section [Converter]. *)
Lemma convert_file_on_accepted (E : env) filename fs :
  accepts H [msg_converting filename (txt_filename filename);
             result_line E filename] →
  convert_file_on H E filename fs = convert_file E filename fs.
Proof.
  intros Hacc.
  assert (host_stdout H (msg_converting filename (txt_filename filename))
          = None) as Hstart by apply Hacc, list_elem_of_here.
  assert (host_stdout H (result_line E filename) = None) as Hres
    by apply Hacc, list_elem_of_further, list_elem_of_here.
  revert Hres.
  unfold result_line, outcome_of, convert_file_on, convert_file,
    pdf_path, txt_path, text_of.
  unfold mbind, M_bind, try_except, print_on, print, open_pdf, emit, raise,
    mret, M_ret.
  rewrite Hstart. simpl.
  destruct (PdfReader E _) as [e|pages]; simpl.
  { by intros ->. }
  rewrite extract_pages_run.
  destruct (first_raise pages) as [[k e]|]; simpl.
  { by intros ->. }
  unfold write_text.
  destruct (open_w E _ _) as [|e|e written]; simpl; by intros ->.
Qed.

Lemma accepts_app (l1 l2 : list string) :
  accepts H (l1 ++ l2) ↔ accepts H l1 ∧ accepts H l2.
Proof.
  unfold accepts. split.
  - intros Hacc. split; intros line Hin; apply Hacc, elem_of_app; auto.
  - intros [H1 H2] line [?|?]%elem_of_app; auto.
Qed.

Lemma for_each_on_accepted (E : env) (files : list string) fs :
  accepts H (mjoin ((λ f, [msg_converting f (txt_filename f);
                           result_line E f]) <$> files)) →
  for_each files (convert_file_on H E) fs
  = for_each files (convert_file E) fs.
Proof.
  revert fs. induction files as [|f files IH]; intros fs Hacc; [done|].
  rewrite fmap_cons in Hacc. simpl in Hacc.
  change (?a :: ?b :: ?l) with ([a; b] ++ l) in Hacc.
  apply accepts_app in Hacc as [Hf Hrest].
  simpl. unfold mbind, M_bind.
  rewrite (convert_file_on_accepted E f fs Hf), convert_file_run.
  by rewrite IH.
Qed.

(** The run on a host whose working directory and listing can be read and
    whose standard output accepts the lines to print is the run of the
    section [Converter]. *)
Lemma convert_on_accepted reader current_dir entries fs :
  host_getcwd H = inr current_dir →
  host_listdir H current_dir = inr entries →
  accepts H (lines_to_print (env_of H reader current_dir entries)) →
  convert_pdfs_to_txt_on H reader fs
  = convert_pdfs_to_txt (env_of H reader current_dir entries) fs.
Proof.
  intros Hcwd Hls.
  unfold convert_pdfs_to_txt_on, convert_pdfs_to_txt, lines_to_print.
  unfold mbind at 1 2, M_bind at 1 2, getcwd_on, listdir_on.
  rewrite Hcwd, Hls.
  set (E := env_of H reader current_dir entries).
  destruct (pdf_files E) as [|f0 files] eqn:Hf.
  { intros Hacc. simpl.
    by rewrite print_on_accepted by apply Hacc, list_elem_of_here. }
  rewrite <- Hf. clear f0 files Hf. intros Hacc.
  change (?a :: ?l ++ ?r) with ([a] ++ l ++ r) in Hacc.
  apply accepts_app in Hacc as [Hfound [Hfiles Hdone]%accepts_app].
  simpl. unfold mbind, M_bind.
  rewrite print_on_accepted by apply Hfound, list_elem_of_here.
  unfold print at 1, emit at 1.
  rewrite (for_each_on_accepted E _ _ Hfiles), for_each_convert_file.
  rewrite print_on_accepted by apply Hdone, list_elem_of_here.
  unfold print, emit. by rewrite for_each_convert_file.
Qed.

End HostFacts.

(** ** The claim on errors, and the properties of the script *)






(** X2: on a host whose working directory and listing can be read, with
    at least one selected file and a standard output that accepts the
    lines to print, the lines printed by the run are the line that counts
    the files, then for each selected file, in listing order, exactly two
    lines, its start line and its result line, then the completion line;
    the result line is the success line when nothing failed for the file
    and the error line of the failure otherwise. *)
Theorem X2_console_output (H : host)
    (reader : string → Exception + list page)
    (current_dir : string) (entries : list string)
    (fs : gmap string string) :
  host_getcwd H = inr current_dir →
  host_listdir H current_dir = inr entries →
  let E := env_of H reader current_dir entries in
  pdf_files E ≠ [] →
  accepts H (lines_to_print E) →
  ∃ results,
    printed (snd (convert_pdfs_to_txt_on H reader fs))
    = (msg_found (length (pdf_files E))
       :: mjoin (zip_with
                   (λ f r, [msg_converting f (txt_filename f); r])
                   (pdf_files E) results)
       ++ [msg_done])%list
    ∧ Forall2
        (λ f r,
           (r = msg_success (txt_filename f) ∧ ∀ e, ¬ fails E f e)
           ∨ ∃ e, fails E f e ∧ r = msg_error f e)
        (pdf_files E) results.
Proof.
  intros Hcwd Hls E Hne Hacc.
  rewrite (convert_on_accepted H reader current_dir entries fs Hcwd Hls Hacc).
  fold E. rewrite printed_run. unfold lines_to_print.
  destruct (pdf_files E) as [|f0 files] eqn:Hf; [done|].
  rewrite <- Hf. clear f0 files Hf Hne.
  exists (result_line E <$> pdf_files E). split.
  - by rewrite zip_with_fmap_r, zip_with_diag.
  - apply Forall2_fmap_r, Forall_Forall2_diag, Forall_forall. intros f _.
    unfold compose, result_line.
    destruct (caught (outcome_of E f)) as [e|] eqn:Hc.
    + right. exists e. by apply caught_fails in Hc.
    + left. split; [done|]. intros e He%caught_fails. congruence.
Qed.

Lemma X2_console_output_witness :
  let reader := PdfReader example_env in
  let E := env_of strict_host reader "/d"
             ["a.pdf"; "b.PDF"; "notes.txt"; "c.pdf"] in
  pdf_files E ≠ []
  ∧ accepts strict_host (lines_to_print E)
  ∧ ∃ results,
      printed (snd (convert_pdfs_to_txt_on strict_host reader ∅))
      = (msg_found 3
         :: mjoin (zip_with
                     (λ f r, [msg_converting f (txt_filename f); r])
                     ["a.pdf"; "b.PDF"; "c.pdf"] results)
         ++ [msg_done])%list.
Proof.
  intros reader E.
  assert (pdf_files E ≠ []) as Hne by discriminate.
  assert (accepts strict_host (lines_to_print E)) as Hacc.
  { assert (Forall (λ line, host_stdout strict_host line = None)
              (lines_to_print E)) as HF by (by apply (bool_decide_unpack _)).
    intros line Hin. exact (proj1 (Forall_forall _ _) HF line Hin). }
  split; [exact Hne|]. split; [exact Hacc|].
  destruct (X2_console_output strict_host reader "/d"
              ["a.pdf"; "b.PDF"; "notes.txt"; "c.pdf"] ∅
              eq_refl eq_refl Hne Hacc) as (results & Hlines & _).
  exists results. exact Hlines.
Defined.
